(** * confusion-metrics: a shallow embedding of [src/index.ts]

    The library has three exported functions:
    - [computeCountsFromLabels]: two label arrays to the four counts,
    - [computeMetricsFromCounts]: the four counts to the derived metrics,
    - [computeMetricsFromLabels]: the composition of the two.

    A TypeScript [number] is an IEEE-754 binary64 value.  It is modelled by
    the axiom-free specification of binary floating point of the standard
    library ([spec_float], with [prec = 53] and [emax = 1024]), so that
    [NaN], the infinities, the signed zeros and rounding are those of the
    running program and every definition evaluates. *)

From Stdlib Require Import ZArith List String Ascii Bool Lia.
From Stdlib Require Import SpecFloat.
From Stdlib Require Import Reals Lra.
Import ListNotations.

Local Open Scope Z_scope.

(** ** Numbers *)

Module Number.

Definition prec : Z := 53.
Definition emax : Z := 1024.

Definition number : Type := spec_float.

Definition NaN : number := S754_nan.
Definition POSITIVE_INFINITY : number := S754_infinity false.

(** Numeric literals and integer-valued numbers. *)
Definition of_Z (z : Z) : number := binary_normalize prec emax z 0 false.

Definition add : number -> number -> number := SFadd prec emax.
Definition sub : number -> number -> number := SFsub prec emax.
Definition mul : number -> number -> number := SFmul prec emax.
Definition div : number -> number -> number := SFdiv prec emax.
Definition sqrt : number -> number := SFsqrt prec emax.
Definition abs : number -> number := SFabs.

(** [x === y], [x < y] and [x <= y] on numbers: [NaN] compares false with
    everything and the two zeros are equal. *)
Definition eqb : number -> number -> bool := SFeqb.
Definition ltb : number -> number -> bool := SFltb.
Definition leb : number -> number -> bool := SFleb.

Definition isNaN (x : number) : bool :=
  match x with S754_nan => true | _ => false end.

(** [Number.isFinite]. *)
Definition isFinite (x : number) : bool :=
  match x with S754_zero _ | S754_finite _ _ _ => true | _ => false end.

(** [Number.EPSILON], 2^-52. *)
Definition EPSILON : number := S754_finite false 4503599627370496 (-104).

End Number.

Export Number.

Declare Scope number_scope.
Delimit Scope number_scope with num.
Bind Scope number_scope with number.
Infix "+" := add : number_scope.
Infix "-" := sub : number_scope.
Infix "*" := mul : number_scope.
Infix "/" := div : number_scope.
Infix "===" := eqb (at level 70, no associativity) : number_scope.
Notation "0" := (of_Z 0) : number_scope.
Notation "1" := (of_Z 1) : number_scope.
Notation "2" := (of_Z 2) : number_scope.

(** ** Run-time values of the label arrays

    The type parameter [T] of the source is erased at run time: an array
    can hold any value, and [isPositive] takes an [unknown].  Objects are
    compared by reference, symbols by identity. *)

Inductive value : Type :=
| VUndefined
| VNull
| VBoolean (b : bool)
| VNumber (x : number)
| VString (s : string)
| VBigInt (z : Z)
| VSymbol (id : nat)
| VObject (ref : nat).

(** The [typeof] operator. *)
Definition typeof (v : value) : string :=
  match v with
  | VUndefined => "undefined"
  | VNull => "object"
  | VBoolean _ => "boolean"
  | VNumber _ => "number"
  | VString _ => "string"
  | VBigInt _ => "bigint"
  | VSymbol _ => "symbol"
  | VObject _ => "object"
  end.

(** Strict equality [a === b]. *)
Definition strict_eq (a b : value) : bool :=
  match a, b with
  | VUndefined, VUndefined => true
  | VNull, VNull => true
  | VBoolean x, VBoolean y => Bool.eqb x y
  | VNumber x, VNumber y => (x === y)%num
  | VString s, VString t => String.eqb s t
  | VBigInt x, VBigInt y => Z.eqb x y
  | VSymbol i, VSymbol j => Nat.eqb i j
  | VObject r, VObject q => Nat.eqb r q
  | _, _ => false
  end.

(** [String.prototype.toLowerCase] on the letters [A]-[Z]; every other
    character is kept.  The code points outside ASCII that JavaScript maps
    into ASCII (U+212A to [k], U+0130 to [i] and a combining dot) cannot
    produce one of the letters of ["true"]. *)
Definition lower_char (c : ascii) : ascii :=
  let n := nat_of_ascii c in
  if ((65 <=? n)%nat && (n <=? 90)%nat)%bool then ascii_of_nat (n + 32) else c.

Fixpoint toLowerCase (s : string) : string :=
  match s with
  | EmptyString => EmptyString
  | String c r => String (lower_char c) (toLowerCase r)
  end.

(** ** Results of a call that may throw *)

Inductive exn : Type := Error (message : string).

Inductive result (A : Type) : Type :=
| Ok (a : A)
| Throw (e : exn).
Arguments Ok {A} a.
Arguments Throw {A} e.

Definition bind {A B : Type} (r : result A) (k : A -> result B) : result B :=
  match r with
  | Ok a => k a
  | Throw e => Throw e
  end.

Notation "'let*' x ':=' r 'in' k" := (bind r (fun x => k))
  (at level 10, x name, r at level 100, k at level 200).

(** ** The data model *)

Record ConfusionCounts : Type := {
  tp : number;
  tn : number;
  fp : number;
  fn : number
}.

(** [ConfusionMetrics extends ConfusionCounts]: the four counts are carried
    unchanged, as the sub-record [counts]. *)
Record ConfusionMetrics : Type := {
  counts :> ConfusionCounts;
  total : number;
  prevalence : number;
  tpr : number;
  fpr : number;
  fnr : number;
  tnr : number;
  ppv : number;
  npv : number;
  lrPlus : number;
  lrMinus : number;
  accuracy : number;
  fdr : number;
  _for : number;
  markedness : number;
  dor : number;
  balancedAccuracy : number;
  f1 : number;
  fm : number;
  mcc : number;
  ts : number
}.

(** ** The functions of [src/index.ts] *)

Local Open Scope number_scope.

Definition divide (numerator denominator : number) : number :=
  if denominator === 0 then NaN else numerator / denominator.

Definition length_mismatch : exn :=
  Error "predicted and actual must have the same length".

(** The closure [isPositive], with the captured [positiveValue] as its
    first argument.  An omitted optional argument is [undefined]. *)
Definition isPositive (positiveValue : value) (v : value) : bool :=
  if negb (strict_eq positiveValue VUndefined) then strict_eq v positiveValue
  else match v with
       | VBoolean b => strict_eq v (VBoolean true)
       | VNumber x => strict_eq v (VNumber 1)
       | VString s => strict_eq v (VString "1")
                      || strict_eq (VString (toLowerCase s)) (VString "true")
       | _ => false
       end.

(** [predicted[i]]: reading past the end of an array gives [undefined]. *)
Definition get (a : list value) (i : nat) : value := nth i a VUndefined.

(** One iteration of the [for] loop on the four counters. *)
Definition step (predicted actual : list value) (positiveValue : value)
    (c : ConfusionCounts) (i : nat) : ConfusionCounts :=
  let p := isPositive positiveValue (get predicted i) in
  let a := isPositive positiveValue (get actual i) in
  if p && a then {| tp := tp c + 1; tn := tn c; fp := fp c; fn := fn c |}
  else if p && negb a then {| tp := tp c; tn := tn c; fp := fp c + 1; fn := fn c |}
  else if negb p && a then {| tp := tp c; tn := tn c; fp := fp c; fn := fn c + 1 |}
  else {| tp := tp c; tn := tn c + 1; fp := fp c; fn := fn c |}.

Definition computeCountsFromLabels (predicted actual : list value)
    (positiveValue : value) : result ConfusionCounts :=
  if negb (Nat.eqb (List.length predicted) (List.length actual))
  then Throw length_mismatch
  else Ok (fold_left (step predicted actual positiveValue)
                     (seq 0 (List.length predicted))
                     {| tp := 0; tn := 0; fp := 0; fn := 0 |}).

Definition computeMetricsFromCounts (c : ConfusionCounts) : ConfusionMetrics :=
  let tp := tp c in
  let tn := tn c in
  let fp := fp c in
  let fn := fn c in
  let positive := tp + fn in
  let negative := tn + fp in
  let total := positive + negative in
  let tpr := divide tp positive in
  let fnr := divide fn positive in
  let tnr := divide tn negative in
  let fpr := divide fp negative in
  let ppv := divide tp (tp + fp) in
  let npv := divide tn (tn + fn) in
  let prevalence := divide positive total in
  let accuracy := divide (tp + tn) total in
  let fdr := 1 - ppv in
  let _for := 1 - npv in
  let markedness := ppv + npv - 1 in
  let lrPlus := divide tpr fpr in
  let lrMinus := divide fnr tnr in
  let dor := divide (tp * tn) (fp * fn) in
  let balancedAccuracy := (tpr + tnr) / 2 in
  let f1 := divide (2 * tp) (2 * tp + fp + fn) in
  let fm := sqrt (ppv * tpr) in
  let mcc := divide (tp * tn - fp * fn)
                    (sqrt ((tp + fp) * (tp + fn) * (tn + fp) * (tn + fn))) in
  let ts := divide tp (tp + fp + fn) in
  {| counts := Build_ConfusionCounts tp tn fp fn;
     total := total;
     prevalence := prevalence;
     tpr := tpr;
     fpr := fpr;
     fnr := fnr;
     tnr := tnr;
     ppv := ppv;
     npv := npv;
     lrPlus := lrPlus;
     lrMinus := lrMinus;
     accuracy := accuracy;
     fdr := fdr;
     _for := _for;
     markedness := markedness;
     dor := dor;
     balancedAccuracy := balancedAccuracy;
     f1 := f1;
     fm := fm;
     mcc := mcc;
     ts := ts |}.

Definition computeMetricsFromLabels (predicted actual : list value)
    (positiveValue : value) : result ConfusionMetrics :=
  let* counts := computeCountsFromLabels predicted actual positiveValue in
  Ok (computeMetricsFromCounts counts).

(** ** Real-number reading of numbers

    The definitions of this section are used in statements and proofs
    about rounding; the program itself never mentions them. *)

Local Open Scope Z_scope.

Definition emin : Z := SpecFloat.emin prec emax.
Definition fexp : Z -> Z := SpecFloat.fexp prec emax.

(** [bpow e] is the real number 2^e. *)
Definition bpow (e : Z) : R := powerRZ 2 e.

(** The real value of a finite number; [0] for the zeros (and, by
    convention, for [NaN] and the infinities). *)
Definition B2R (x : number) : R :=
  match x with
  | S754_finite s m e => ((if s then -1 else 1) * IZR (Zpos m) * bpow e)%R
  | _ => 0%R
  end.

(** [located m l u]: the real [u] lies in [[m, m+1)] at the place the
    location [l] says. *)
Definition located (m : Z) (l : location) (u : R) : Prop :=
  match l with
  | loc_Exact => u = IZR m
  | loc_Inexact c =>
      (IZR m < u < IZR m + 1)%R /\
      match c with
      | Lt => (u < IZR m + 1 / 2)%R
      | Eq => (u = IZR m + 1 / 2)%R
      | Gt => (IZR m + 1 / 2 < u)%R
      end
  end.

(** Rounding of a real to the nearest integer, ties to even. *)
Definition nearE (u : R) : Z :=
  let f := Zfloor u in
  if Rlt_dec (u - IZR f) (1 / 2) then f
  else if Rlt_dec (1 / 2) (u - IZR f) then f + 1
  else if Z.even f then f else f + 1.

(** The last step of [binary_round_aux]: the rounded mantissa [k] at
    exponent [t] is renormalised and checked for overflow. *)
Definition finish (sx : bool) (k t : Z) : number :=
  let '(mrs, e) := shr_fexp prec emax k t loc_Exact in
  match shr_m mrs with
  | Z0 => S754_zero sx
  | Zpos m => if e <=? emax - prec then S754_finite sx m e else S754_infinity sx
  | Zneg _ => S754_nan
  end.

(** [cexp_of v t]: [t] is the exponent of the binary64 grid around the
    non-negative real [v]. *)
Definition cexp_of (v : R) (t : Z) : Prop :=
  (t = emin /\ (0 <= v < bpow (emin + prec))%R) \/
  (emin < t /\ (bpow (t + prec - 1) <= v < bpow (t + prec))%R).

(** The number obtained by rounding the real [v] on the grid [t]. *)
Definition Fl (sx : bool) (v : R) (t : Z) : number :=
  finish sx (nearE (v * bpow (- t))) t.

(** The real value of [Fl sx v t] when it does not overflow. *)
Definition rnd (v : R) (t : Z) : R :=
  (IZR (nearE (v * bpow (- t))) * bpow t)%R.

(** Valid, finite and non-negative numbers (the two zeros included). *)
Definition finite_nonneg (x : number) : bool :=
  match x with
  | S754_zero _ => true
  | S754_finite false m e => SpecFloat.bounded prec emax m e
  | _ => false
  end.

(** The outcome [c] of comparing the reals [a] and [b]. *)
Definition Rcomp (a b : R) (c : comparison) : Prop :=
  match c with
  | Lt => (a < b)%R
  | Eq => a = b
  | Gt => (b < a)%R
  end.

(** ** Integer-valued numbers

    [Zvalue x] is the integer a finite, integer-valued number denotes
    ([Number.isInteger(x)] holds exactly when it is defined). *)
Definition Zvalue (x : number) : option Z :=
  match x with
  | S754_zero _ => Some 0
  | S754_finite s m e =>
      if 0 <=? e then Some (cond_Zopp s (Zpos m * 2 ^ e))
      else if Zpos m mod 2 ^ (- e) =? 0 then Some (cond_Zopp s (Zpos m / 2 ^ (- e)))
      else None
  | _ => None
  end.

(** A count: a valid number that is a non-negative integer. *)
Definition nonneg_integer (x : number) : bool :=
  valid_binary prec emax x &&
  match Zvalue x with
  | Some n => 0 <=? n
  | None => false
  end.

(** ** Specification-side definitions *)

(** The counts with the roles of predicted and actual exchanged. *)
Definition swap_counts (c : ConfusionCounts) : ConfusionCounts :=
  {| tp := tp c; tn := tn c; fp := fn c; fn := fp c |}.

(** The number of elements of [l] that satisfy [f]. *)
Definition cnt (f : nat -> bool) (l : list nat) : Z :=
  Z.of_nat (List.length (filter f l)).

(** The number of indexes [i < n] that satisfy [P]. *)
Definition count_indexes (n : nat) (P : nat -> bool) : Z :=
  cnt P (seq 0 n).

(** A string that is ["true"] up to the case of its letters. *)
Definition true_ignoring_case (s : string) : Prop :=
  exists c1 c2 c3 c4 : ascii,
    s = String c1 (String c2 (String c3 (String c4 EmptyString))) /\
    (c1 = "t"%char \/ c1 = "T"%char) /\
    (c2 = "r"%char \/ c2 = "R"%char) /\
    (c3 = "u"%char \/ c3 = "U"%char) /\
    (c4 = "e"%char \/ c4 = "E"%char).

(** Positivity of a label as the specification words it. *)
Definition positive_spec (positiveValue v : value) : Prop :=
  match positiveValue with
  | VUndefined =>
      match v with
      | VBoolean b => b = true
      | VNumber x => (x === 1)%num = true
      | VString s => s = "1"%string \/ true_ignoring_case s
      | _ => False
      end
  | _ => strict_eq v positiveValue = true
  end.

(** The largest power of two that is a binary64 number, 2^1023. *)
Definition two_pow_1023 : number := S754_finite false 4503599627370496 971.

(** The number just below 1, 1 - 2^-53. *)
Definition pred_one : number := S754_finite false 9007199254740991 (-53).

(** Valid non-negative numbers, [+Infinity] included. *)
Definition nonneg_ext (x : number) : bool :=
  finite_nonneg x || match x with S754_infinity false => true | _ => false end.

(** [r], when it is not [NaN], lies in the closed interval [[0, 1]]. *)
Definition in_unit_interval (r : number) : Prop :=
  isNaN r = false -> leb (of_Z 0) r = true /\ leb r (of_Z 1) = true.

(** [x] is one of the two zeros. *)
Definition isZero (x : number) : bool :=
  match x with S754_zero _ => true | _ => false end.

(** [x] is one of the two infinities. *)
Definition isInfinity (x : number) : bool :=
  match x with S754_infinity _ => true | _ => false end.

(** Componentwise sum of two counts. *)
Definition add_counts (c d : ConfusionCounts) : ConfusionCounts :=
  {| tp := (tp c + tp d)%num; tn := (tn c + tn d)%num;
     fp := (fp c + fp d)%num; fn := (fn c + fn d)%num |}.

(** The counts with the positive and the negative class exchanged. *)
Definition swap_classes (c : ConfusionCounts) : ConfusionCounts :=
  {| tp := tn c; tn := tp c; fp := fn c; fn := fp c |}.

Close Scope number_scope.


(** ** Powers of two *)

Lemma bpow_pos (e : Z) : (0 < bpow e)%R.
Proof. apply powerRZ_lt; lra. Qed.

Lemma bpow_add (a b : Z) : bpow (a + b) = (bpow a * bpow b)%R.
Proof. apply powerRZ_add; lra. Qed.

Lemma bpow_0 : bpow 0 = 1%R.
Proof. reflexivity. Qed.

Lemma bpow_1 : bpow 1 = 2%R.
Proof. unfold bpow; simpl; lra. Qed.

Lemma bpow_opp (e : Z) : bpow (- e) = (/ bpow e)%R.
Proof. apply powerRZ_neg'. Qed.

Lemma bpow_succ (e : Z) : bpow (e + 1) = (2 * bpow e)%R.
Proof. rewrite bpow_add, bpow_1; lra. Qed.

Lemma bpow_pred (e : Z) : bpow (e - 1) = (bpow e / 2)%R.
Proof.
  replace e with ((e - 1) + 1) at 2 by lia. rewrite bpow_succ. lra.
Qed.

Lemma bpow_inv_l (e : Z) : (bpow (- e) * bpow e = 1)%R.
Proof. rewrite <- bpow_add. replace (- e + e) with 0 by lia. apply bpow_0. Qed.

Lemma bpow_inv_r (e : Z) : (bpow e * bpow (- e) = 1)%R.
Proof. rewrite Rmult_comm; apply bpow_inv_l. Qed.

Lemma bpow_IZR (n : Z) : 0 <= n -> bpow n = IZR (2 ^ n).
Proof.
  intros Hn. unfold bpow.
  rewrite <- (Z2Nat.id n Hn) at 1.
  rewrite <- pow_powerRZ, pow_IZR, Z2Nat.id by assumption.
  reflexivity.
Qed.

Lemma bpow_ge_1 (n : Z) : 0 <= n -> (1 <= bpow n)%R.
Proof.
  intros Hn. rewrite bpow_IZR by assumption.
  apply IZR_le. assert (0 < 2 ^ n) by (apply Z.pow_pos_nonneg; lia). lia.
Qed.

Lemma bpow_le (a b : Z) : a <= b -> (bpow a <= bpow b)%R.
Proof.
  intros H. replace b with (a + (b - a)) by lia.
  rewrite bpow_add.
  pose proof (bpow_pos a). pose proof (bpow_ge_1 (b - a) ltac:(lia)).
  nra.
Qed.

Lemma bpow_lt (a b : Z) : a < b -> (bpow a < bpow b)%R.
Proof.
  intros H. pose proof (bpow_le (a + 1) b ltac:(lia)) as Hle.
  rewrite bpow_succ in Hle. pose proof (bpow_pos a). lra.
Qed.

Lemma bpow_lt_inv (a b : Z) : (bpow a < bpow b)%R -> a < b.
Proof.
  intros H. destruct (Z_lt_le_dec a b) as [|Hle]; [assumption|].
  apply bpow_le in Hle. lra.
Qed.

Lemma bpow_le_inv (a b : Z) : (bpow a <= bpow b)%R -> a <= b.
Proof.
  intros H. destruct (Z_le_gt_dec a b) as [|Hgt]; [assumption|].
  apply Z.gt_lt, bpow_lt in Hgt. lra.
Qed.

(** ** Number of binary digits *)

Lemma digits2_pos_size (p : positive) : digits2_pos p = Pos.size p.
Proof. induction p; simpl; congruence. Qed.

Lemma Zdigits2_bounds (p : positive) :
  2 ^ (Zpos (digits2_pos p) - 1) <= Zpos p < 2 ^ Zpos (digits2_pos p).
Proof.
  rewrite digits2_pos_size. split.
  - pose proof (Pos.size_le p) as H.
    assert (Hp : 2 ^ Zpos (Pos.size p) <= 2 * Zpos p).
    { change (2 * Zpos p) with (Zpos p~0). rewrite <- Pos2Z.inj_pow. apply Pos2Z.pos_le_pos, H. }
    replace (Zpos (Pos.size p)) with ((Zpos (Pos.size p) - 1) + 1) in Hp by lia.
    rewrite Z.pow_add_r in Hp by lia. lia.
  - pose proof (Pos.size_gt p) as H.
    rewrite <- Pos2Z.inj_pow. apply Pos2Z.pos_lt_pos, H.
Qed.

Lemma Zdigits2_unique (p : positive) (d : Z) :
  2 ^ (d - 1) <= Zpos p < 2 ^ d -> Zpos (digits2_pos p) = d.
Proof.
  intros [Hlo Hhi]. pose proof (Zdigits2_bounds p) as [Hlo' Hhi'].
  assert (Hd : 0 < d).
  { destruct (Z_lt_le_dec 0 d); [assumption|].
    destruct (Z.eq_dec d 0) as [->|]; [simpl in Hhi; lia|].
    rewrite Z.pow_neg_r in Hhi by lia. lia. }
  destruct (Z_lt_le_dec (Zpos (digits2_pos p)) d) as [Hlt|Hge].
  - assert (2 ^ Zpos (digits2_pos p) <= 2 ^ (d - 1)) by (apply Z.pow_le_mono_r; lia). lia.
  - destruct (Z.eq_dec (Zpos (digits2_pos p)) d); [assumption|].
    assert (2 ^ d <= 2 ^ (Zpos (digits2_pos p) - 1)) by (apply Z.pow_le_mono_r; lia). lia.
Qed.

Lemma digits_bpow (p : positive) :
  (bpow (Zpos (digits2_pos p) - 1) <= IZR (Zpos p) < bpow (Zpos (digits2_pos p)))%R.
Proof.
  pose proof (Zdigits2_bounds p) as [Hlo Hhi].
  rewrite !bpow_IZR by lia. split; [apply IZR_le | apply IZR_lt]; assumption.
Qed.


(** ** Shifting a mantissa to the right *)

Lemma iter_pos_iter {A : Type} (f : A -> A) (n : positive) (x : A) :
  SpecFloat.iter_pos f n x = Pos.iter f x n.
Proof.
  revert x. induction n as [n IH|n IH|]; intros x; simpl.
  - rewrite !IH, <- !Pos.iter_swap. reflexivity.
  - rewrite !IH. reflexivity.
  - reflexivity.
Qed.

Lemma located_floor (m : Z) (l : location) (u : R) :
  located m l u -> (IZR m <= u < IZR m + 1)%R.
Proof. destruct l as [|c]; simpl; [intros ->; lra | intros [H _]; lra]. Qed.

Lemma shr_record_of_loc_m (m : Z) (l : location) :
  shr_m (shr_record_of_loc m l) = m.
Proof. destruct l as [|[]]; reflexivity. Qed.

Lemma shr_record_of_loc_loc (m : Z) (l : location) :
  loc_of_shr_record (shr_record_of_loc m l) = l.
Proof. destruct l as [|[]]; reflexivity. Qed.

Lemma IZR_xO (p : positive) : IZR (Zpos p~0) = (2 * IZR (Zpos p))%R.
Proof. change (Zpos p~0) with (2 * Zpos p). apply mult_IZR. Qed.

Lemma IZR_xI (p : positive) : IZR (Zpos p~1) = (2 * IZR (Zpos p) + 1)%R.
Proof. change (Zpos p~1) with (2 * Zpos p + 1). rewrite plus_IZR, mult_IZR. reflexivity. Qed.

Lemma shr_1_located (r : shr_record) (u : R) :
  0 <= shr_m r ->
  located (shr_m r) (loc_of_shr_record r) u ->
  0 <= shr_m (shr_1 r) /\
  located (shr_m (shr_1 r)) (loc_of_shr_record (shr_1 r)) (u / 2).
Proof.
  destruct r as [m b s]. cbn [shr_m]. intros Hm.
  destruct m as [|p|p]; [| |lia].
  - destruct b, s; cbn [shr_1 shr_m loc_of_shr_record located orb];
      intros H; (split; [lia|]); lra.
  - destruct p as [p|p|]; destruct b, s;
      cbn [shr_1 shr_m loc_of_shr_record located orb];
      try pose proof (IZR_xO p) as E0; try pose proof (IZR_xI p) as E1;
      intros H; (split; [lia|]); lra.
Qed.

Lemma shr_iter_located (n : positive) (r : shr_record) (u : R) :
  0 <= shr_m r ->
  located (shr_m r) (loc_of_shr_record r) u ->
  0 <= shr_m (SpecFloat.iter_pos shr_1 n r) /\
  located (shr_m (SpecFloat.iter_pos shr_1 n r)) (loc_of_shr_record (SpecFloat.iter_pos shr_1 n r))
          (u * bpow (- Zpos n)).
Proof.
  intros Hm Hl. rewrite iter_pos_iter.
  induction n as [|n IH] using Pos.peano_ind.
  - change (Pos.iter shr_1 r 1) with (shr_1 r).
    destruct (shr_1_located r u Hm Hl) as [H1 H2].
    split; [assumption|].
    change (- Zpos 1) with (0 - 1). rewrite bpow_pred, bpow_0.
    replace (u * (1 / 2))%R with (u / 2)%R by lra. assumption.
  - rewrite Pos.iter_succ. destruct IH as [H1 H2].
    destruct (shr_1_located _ _ H1 H2) as [H3 H4].
    split; [assumption|].
    replace (u * bpow (- Zpos (Pos.succ n)))%R with (u * bpow (- Zpos n) / 2)%R; [assumption|].
    rewrite Pos2Z.inj_succ. replace (- Z.succ (Zpos n)) with (- Zpos n - 1) by lia.
    rewrite bpow_pred. lra.
Qed.

Lemma shr_fexp_located (m e : Z) (l : location) (u : R) :
  0 <= m -> located m l u ->
  let '(mrs, e') := shr_fexp prec emax m e l in
  e' = Z.max e (fexp (Zdigits2 m + e)) /\
  0 <= shr_m mrs /\
  located (shr_m mrs) (loc_of_shr_record mrs) (u * bpow (e - e')).
Proof.
  intros Hm Hl. unfold shr_fexp, shr. fold (fexp (Zdigits2 m + e)).
  destruct (fexp (Zdigits2 m + e) - e) as [|n|n] eqn:Hn.
  - rewrite shr_record_of_loc_m, shr_record_of_loc_loc.
    split; [lia|]. split; [assumption|].
    rewrite Z.sub_diag, bpow_0, Rmult_1_r. assumption.
  - pose proof (shr_iter_located n (shr_record_of_loc m l) u) as H.
    rewrite shr_record_of_loc_m, shr_record_of_loc_loc in H.
    destruct (H Hm Hl) as [H1 H2].
    split; [lia|]. split; [assumption|].
    replace (e - (e + Zpos n)) with (- Zpos n) by lia. assumption.
  - rewrite shr_record_of_loc_m, shr_record_of_loc_loc.
    split; [lia|]. split; [assumption|].
    rewrite Z.sub_diag, bpow_0, Rmult_1_r. assumption.
Qed.

(** ** Rounding to nearest, ties to even *)

Lemma round_nearest_even_nearE (m : Z) (l : location) (u : R) :
  located m l u -> round_nearest_even m l = nearE u.
Proof.
  intros Hl. pose proof (located_floor _ _ _ Hl) as Hf.
  unfold nearE. rewrite (Zfloor_eq m u Hf).
  destruct l as [|c]; simpl in *.
  - subst u. destruct (Rlt_dec _ _) as [|Hn]; [reflexivity|]. exfalso; apply Hn; lra.
  - destruct Hl as [_ Hc]. destruct c.
    + destruct (Rlt_dec _ _); [lra|]. destruct (Rlt_dec _ _); [lra|]. reflexivity.
    + destruct (Rlt_dec _ _) as [|Hn]; [reflexivity|]. exfalso; apply Hn; lra.
    + destruct (Rlt_dec _ _); [lra|]. destruct (Rlt_dec _ _) as [|Hn]; [reflexivity|].
      exfalso; apply Hn; lra.
Qed.

Lemma nearE_IZR (k : Z) : nearE (IZR k) = k.
Proof.
  unfold nearE. rewrite ZfloorZ.
  destruct (Rlt_dec _ _) as [|Hn]; [reflexivity|]. exfalso; apply Hn; lra.
Qed.

Lemma nearE_bounds (u : R) :
  (IZR (nearE u) - 1 / 2 <= u <= IZR (nearE u) + 1 / 2)%R.
Proof.
  unfold nearE. pose proof (Zfloor_bound u) as Hf.
  destruct (Rlt_dec _ _); [lra|].
  destruct (Rlt_dec _ _); [rewrite plus_IZR; lra|].
  destruct (Z.even _); [|rewrite plus_IZR]; lra.
Qed.

Lemma nearE_floor_or_succ (u : R) :
  nearE u = Zfloor u \/ nearE u = Zfloor u + 1.
Proof.
  unfold nearE. destruct (Rlt_dec _ _); [now left|].
  destruct (Rlt_dec _ _); [now right|]. destruct (Z.even _); [now left|now right].
Qed.

Lemma nearE_le (u v : R) : (u <= v)%R -> nearE u <= nearE v.
Proof.
  intros Huv. pose proof (Zfloor_le u v Huv) as Hfl.
  destruct (Z.eq_dec (Zfloor u) (Zfloor v)) as [E|NE].
  - unfold nearE. rewrite E.
    repeat match goal with
           | |- context [Rlt_dec ?a ?b] => destruct (Rlt_dec a b)
           end; try lra; try lia; destruct (Z.even (Zfloor v)); lia.
  - destruct (nearE_floor_or_succ u) as [-> | ->], (nearE_floor_or_succ v) as [-> | ->]; lia.
Qed.

Lemma nearE_nonneg (u : R) : (0 <= u)%R -> 0 <= nearE u.
Proof. intros H. rewrite <- (nearE_IZR 0). apply nearE_le, H. Qed.

Lemma nearE_le_IZR (u : R) (k : Z) : (u <= IZR k)%R -> nearE u <= k.
Proof. intros H. rewrite <- (nearE_IZR k). apply nearE_le, H. Qed.

Lemma nearE_ge_IZR (u : R) (k : Z) : (IZR k <= u)%R -> k <= nearE u.
Proof. intros H. rewrite <- (nearE_IZR k). apply nearE_le, H. Qed.

(** The rounded integer is a nearest one. *)
Lemma nearE_nearest (u : R) (k : Z) :
  (Rabs (IZR (nearE u) - u) <= Rabs (IZR k - u))%R.
Proof.
  pose proof (nearE_bounds u) as Hb.
  pose proof (Zfloor_bound u) as Hf.
  destruct (Z_le_gt_dec k (Zfloor u)) as [Hk|Hk].
  - apply IZR_le in Hk.
    destruct (nearE_floor_or_succ u) as [E|E]; rewrite E in *; [|rewrite plus_IZR in *];
      unfold Rabs; repeat destruct (Rcase_abs _); lra.
  - assert (Hk' : Zfloor u + 1 <= k) by lia. apply IZR_le in Hk'. rewrite plus_IZR in Hk'.
    destruct (nearE_floor_or_succ u) as [E|E]; rewrite E in *; [|rewrite plus_IZR in *];
      unfold Rabs; repeat destruct (Rcase_abs _); lra.
Qed.


(** ** The grid exponent of a real *)

Lemma emin_eq : emin = -1074.
Proof. reflexivity. Qed.

Lemma fexp_eq (d : Z) : fexp d = Z.max (d - 53) (-1074).
Proof. reflexivity. Qed.

Lemma cexp_of_unique (v : R) (t1 t2 : Z) :
  cexp_of v t1 -> cexp_of v t2 -> t1 = t2.
Proof.
  unfold cexp_of. rewrite emin_eq. unfold prec.
  intros [[-> H1]|[L1 H1]] [[-> H2]|[L2 H2]]; try reflexivity.
  - assert (bpow (t2 + 53 - 1) < bpow (-1074 + 53))%R by lra.
    apply bpow_lt_inv in H. lia.
  - assert (bpow (t1 + 53 - 1) < bpow (-1074 + 53))%R by lra.
    apply bpow_lt_inv in H. lia.
  - assert (Ha : (bpow (t1 + 53 - 1) < bpow (t2 + 53))%R) by lra.
    assert (Hb : (bpow (t2 + 53 - 1) < bpow (t1 + 53))%R) by lra.
    apply bpow_lt_inv in Ha, Hb. lia.
Qed.

Lemma cexp_of_nonneg (v : R) (t : Z) : cexp_of v t -> (0 <= v)%R.
Proof.
  intros [[_ H]|[_ H]]; [lra|].
  pose proof (bpow_pos (t + prec - 1)). lra.
Qed.

Lemma cexp_of_ge_emin (v : R) (t : Z) : cexp_of v t -> emin <= t.
Proof. intros [[-> _]|[H _]]; lia. Qed.

Lemma cexp_of_lt (v : R) (t : Z) : cexp_of v t -> (v < bpow (t + prec))%R.
Proof. intros [[-> H]|[_ H]]; lra. Qed.

(** A real between [2^(d-1)] and [2^d] lies on the grid [fexp d]. *)
Lemma cexp_of_mag (v : R) (d : Z) :
  (bpow (d - 1) <= v < bpow d)%R -> cexp_of v (fexp d).
Proof.
  intros [Hlo Hhi]. unfold cexp_of. rewrite fexp_eq, emin_eq. unfold prec.
  destruct (Z_le_gt_dec (d - 53) (-1074)) as [Hd|Hd].
  - left. rewrite Z.max_r by lia. split; [reflexivity|].
    pose proof (bpow_pos (d - 1)). pose proof (bpow_le d (-1074 + 53) ltac:(lia)). lra.
  - right. rewrite Z.max_l by lia. split; [lia|].
    replace (d - 53 + 53 - 1) with (d - 1) by lia.
    replace (d - 53 + 53) with d by lia. lra.
Qed.

Lemma cexp_of_exists (v : R) (t : Z) (d : Z) :
  cexp_of v t -> (bpow (d - 1) <= v < bpow d)%R -> t = fexp d.
Proof. intros H Hd. eapply cexp_of_unique; [exact H | apply cexp_of_mag, Hd]. Qed.

(** The magnitude of [u * 2^e] when [u] has integer part [m > 0]. *)
Lemma mag_located (p : positive) (e : Z) (u : R) :
  (IZR (Zpos p) <= u < IZR (Zpos p) + 1)%R ->
  (bpow (Zpos (digits2_pos p) + e - 1) <= u * bpow e < bpow (Zpos (digits2_pos p) + e))%R.
Proof.
  intros [Hlo Hhi].
  pose proof (Zdigits2_bounds p) as [Dlo Dhi].
  assert (Hhi' : (u < bpow (Zpos (digits2_pos p)))%R).
  { rewrite bpow_IZR by lia.
    assert (Zpos p + 1 <= 2 ^ Zpos (digits2_pos p)) by lia.
    apply IZR_le in H. rewrite plus_IZR in H. lra. }
  assert (Hlo' : (bpow (Zpos (digits2_pos p) - 1) <= u)%R).
  { rewrite bpow_IZR by lia. apply IZR_le in Dlo. lra. }
  replace (Zpos (digits2_pos p) + e - 1) with ((Zpos (digits2_pos p) - 1) + e) by lia.
  rewrite !bpow_add. pose proof (bpow_pos e). split; nra.
Qed.

(** ** The specification of [binary_round_aux] *)

Lemma binary_round_aux_finish (sx : bool) (m e : Z) (l : location) :
  binary_round_aux prec emax sx m e l =
  finish sx (round_nearest_even (shr_m (fst (shr_fexp prec emax m e l)))
                                (loc_of_shr_record (fst (shr_fexp prec emax m e l))))
         (snd (shr_fexp prec emax m e l)).
Proof.
  unfold binary_round_aux, finish.
  destruct (shr_fexp prec emax m e l) as [mrs e']. reflexivity.
Qed.

Lemma binary_round_aux_Fl (sx : bool) (m e : Z) (l : location) (u : R) :
  0 <= m -> located m l u ->
  binary_round_aux prec emax sx m e l =
  Fl sx (u * bpow e) (Z.max e (fexp (Zdigits2 m + e))).
Proof.
  intros Hm Hl. rewrite binary_round_aux_finish.
  pose proof (shr_fexp_located m e l u Hm Hl) as H.
  destruct (shr_fexp prec emax m e l) as [mrs e']. cbn [fst snd].
  destruct H as (-> & Hpos & Hloc).
  rewrite (round_nearest_even_nearE _ _ _ Hloc).
  unfold Fl. f_equal. f_equal.
  unfold Z.sub. rewrite bpow_add. lra.
Qed.

(** Rounding never produces [NaN]. *)
Lemma finish_not_nan (sx : bool) (k t : Z) : 0 <= k -> finish sx k t <> NaN.
Proof.
  intros Hk. unfold finish.
  pose proof (shr_fexp_located k t loc_Exact (IZR k) Hk eq_refl) as H.
  destruct (shr_fexp prec emax k t loc_Exact) as [mrs e'].
  destruct H as (_ & Hpos & _).
  destruct (shr_m mrs) as [|q|q]; [discriminate| |lia].
  destruct (e' <=? emax - prec); discriminate.
Qed.

Lemma located_inhabited (m : Z) (l : location) : exists u, located m l u.
Proof.
  destruct l as [|[]]; simpl.
  - exists (IZR m). reflexivity.
  - exists (IZR m + 1 / 2)%R. split; lra.
  - exists (IZR m + 1 / 4)%R. split; lra.
  - exists (IZR m + 3 / 4)%R. split; lra.
Qed.

Lemma binary_round_aux_not_nan (sx : bool) (m e : Z) (l : location) :
  0 <= m -> binary_round_aux prec emax sx m e l <> NaN.
Proof.
  intros Hm. destruct (located_inhabited m l) as [u Hu].
  rewrite (binary_round_aux_Fl sx m e l u Hm Hu). unfold Fl.
  apply finish_not_nan, nearE_nonneg.
  pose proof (located_floor _ _ _ Hu). apply IZR_le in Hm.
  pose proof (bpow_pos e). pose proof (bpow_pos (- Z.max e (fexp (Zdigits2 m + e)))).
  apply Rmult_le_pos; [apply Rmult_le_pos|]; lra.
Qed.


(** ** The last step of rounding *)

Lemma digits_le (p : positive) (n : Z) :
  0 <= n -> Zpos p < 2 ^ n -> Zpos (digits2_pos p) <= n.
Proof.
  intros Hn Hp. pose proof (Zdigits2_bounds p) as [Hlo _].
  destruct (Z_le_gt_dec (Zpos (digits2_pos p)) n) as [|Hgt]; [assumption|].
  assert (2 ^ n <= 2 ^ (Zpos (digits2_pos p) - 1)) by (apply Z.pow_le_mono_r; lia).
  lia.
Qed.

Lemma nearE_range (v : R) (t : Z) :
  cexp_of v t ->
  0 <= nearE (v * bpow (- t)) <= 2 ^ 53 /\
  (emin < t -> 2 ^ 52 <= nearE (v * bpow (- t))).
Proof.
  intros H. pose proof (cexp_of_nonneg _ _ H) as Hv.
  pose proof (cexp_of_lt _ _ H) as Hlt.
  pose proof (bpow_pos (- t)) as Ht.
  repeat split.
  - apply nearE_nonneg. apply Rmult_le_pos; lra.
  - apply nearE_le_IZR. rewrite <- bpow_IZR by lia.
    replace 53 with ((t + prec) + - t) by (unfold prec; lia).
    rewrite bpow_add. nra.
  - intros Ht'. destruct H as [[-> _]|[_ [Hlo _]]]; [lia|].
    apply nearE_ge_IZR. rewrite <- bpow_IZR by lia.
    replace 52 with ((t + prec - 1) + - t) by (unfold prec; lia).
    rewrite bpow_add. nra.
Qed.

Lemma finish_0 (sx : bool) (t : Z) : finish sx 0 t = S754_zero sx.
Proof.
  unfold finish.
  pose proof (shr_fexp_located 0 t loc_Exact 0%R (Z.le_refl 0) eq_refl) as H.
  destruct (shr_fexp prec emax 0 t loc_Exact) as [mrs e'].
  destruct H as (_ & Hpos & Hloc).
  apply located_floor in Hloc. rewrite Rmult_0_l in Hloc.
  assert (shr_m mrs = 0).
  { destruct (Z.eq_dec (shr_m mrs) 0) as [|NE]; [assumption|].
    assert (H1 : 1 <= shr_m mrs) by lia. apply IZR_le in H1. lra. }
  rewrite H. reflexivity.
Qed.

Lemma finish_lt (sx : bool) (k : positive) (t : Z) :
  Zpos k < 2 ^ 53 -> emin <= t ->
  finish sx (Zpos k) t =
  if t <=? emax - prec then S754_finite sx k t else S754_infinity sx.
Proof.
  intros Hk Ht. unfold finish, shr_fexp, shr.
  fold (fexp (Zdigits2 (Zpos k) + t)).
  pose proof (digits_le k 53 ltac:(lia) Hk) as Hd.
  assert (Hs : fexp (Zdigits2 (Zpos k) + t) - t <= 0).
  { rewrite fexp_eq. rewrite emin_eq in Ht. cbn [Zdigits2]. lia. }
  destruct (fexp (Zdigits2 (Zpos k) + t) - t) as [|q|q]; [reflexivity|lia|reflexivity].
Qed.

Lemma finish_carry (sx : bool) (t : Z) :
  emin <= t ->
  finish sx (2 ^ 53) t =
  if t + 1 <=? emax - prec then S754_finite sx 4503599627370496 (t + 1)
  else S754_infinity sx.
Proof.
  intros Ht. unfold finish, shr_fexp, shr.
  fold (fexp (Zdigits2 (2 ^ 53) + t)).
  assert (Hs : fexp (Zdigits2 (2 ^ 53) + t) - t = 1).
  { rewrite fexp_eq. rewrite emin_eq in Ht.
    change (Zdigits2 (2 ^ 53)) with 54. lia. }
  rewrite Hs. reflexivity.
Qed.

Lemma bounded_canonical (k : positive) (t : Z) :
  Zpos k < 2 ^ 53 -> emin <= t -> (emin < t -> 2 ^ 52 <= Zpos k) ->
  t <= emax - prec -> SpecFloat.bounded prec emax k t = true.
Proof.
  intros Hk Ht Hn Hmax. unfold SpecFloat.bounded, canonical_mantissa.
  fold (fexp (Zpos (digits2_pos k) + t)).
  apply andb_true_intro. split; [|apply Z.leb_le; assumption].
  apply Z.eqb_eq. rewrite fexp_eq. rewrite emin_eq in *.
  pose proof (digits_le k 53 ltac:(lia) Hk) as Hd.
  destruct (Z.eq_dec t (-1074)) as [->|NE]; [lia|].
  assert (Hdig : Zpos (digits2_pos k) = 53).
  { apply Zdigits2_unique. split; [apply Hn|]; lia. }
  lia.
Qed.

(** The value and the shape of a rounded number. *)
Lemma Fl_spec (v : R) (t : Z) :
  cexp_of v t ->
  ((rnd v t < bpow emax)%R ->
     finite_nonneg (Fl false v t) = true /\ B2R (Fl false v t) = rnd v t) /\
  ((bpow emax <= rnd v t)%R -> Fl false v t = S754_infinity false).
Proof.
  intros H. pose proof (nearE_range v t H) as [[Hk0 Hk1] Hk2].
  pose proof (cexp_of_ge_emin v t H) as Ht.
  unfold Fl, rnd. set (k := nearE (v * bpow (- t))) in *.
  assert (Hemax : bpow emax = (bpow 53 * bpow (emax - prec))%R).
  { rewrite <- bpow_add. reflexivity. }
  pose proof (bpow_pos t) as Hbt.
  destruct (Z.eq_dec k 0) as [E0|N0].
  { rewrite E0, finish_0. split; [intros _|].
    - split; [reflexivity|simpl; lra].
    - rewrite Rmult_0_l. pose proof (bpow_pos emax). lra. }
  destruct (Z.eq_dec k (2 ^ 53)) as [E1|N1].
  { rewrite E1, finish_carry by assumption.
    rewrite <- bpow_IZR, <- bpow_add by lia.
    destruct (Z.leb_spec (t + 1) (emax - prec)) as [Hle|Hgt]; split; intros Hx.
    - split.
      + apply bounded_canonical; lia.
      + cbn [B2R]. change (IZR (Zpos 4503599627370496)) with (IZR (2 ^ 52)).
        rewrite Rmult_1_l, <- bpow_IZR, <- bpow_add by lia.
        f_equal. lia.
    - apply bpow_le_inv in Hx. unfold emax, prec in *. lia.
    - apply bpow_lt_inv in Hx. unfold emax, prec in *. lia.
    - reflexivity. }
  destruct k as [|k|k]; [lia| |lia].
  rewrite finish_lt by lia.
  assert (Hkr : (IZR (Zpos k) < bpow 53)%R).
  { rewrite bpow_IZR by lia. apply IZR_lt. lia. }
  assert (Hk1r : (1 <= IZR (Zpos k))%R) by (apply IZR_le; lia).
  destruct (Z.leb_spec t (emax - prec)) as [Hle|Hgt]; split; intros Hx.
  - split.
    + apply bounded_canonical; try lia.
    + cbn [B2R]. lra.
  - exfalso. pose proof (bpow_le t (emax - prec) Hle).
    pose proof (bpow_pos (emax - prec)). nra.
  - exfalso. assert (Ht' : emin < t) by (rewrite emin_eq; unfold emax, prec in *; lia).
    specialize (Hk2 Ht'). apply IZR_le in Hk2. rewrite <- bpow_IZR in Hk2 by lia.
    pose proof (bpow_le (emax - prec + 1) t ltac:(lia)) as Hbt'.
    rewrite bpow_succ in Hbt'.
    replace (bpow 53) with (2 * bpow 52)%R in Hemax
      by (change 53 with (52 + 1); rewrite bpow_succ; reflexivity).
    pose proof (bpow_pos 52). pose proof (bpow_pos (emax - prec)). nra.
  - reflexivity.
Qed.


(** ** Aligning mantissas and [binary_round] *)

Lemma iter_xO (m d : positive) : Zpos (Pos.iter xO m d) = Zpos m * 2 ^ Zpos d.
Proof.
  induction d as [|d IH] using Pos.peano_ind.
  - simpl Pos.iter. lia.
  - rewrite Pos.iter_succ, Pos2Z.inj_succ, Z.pow_succ_r by lia.
    change (Zpos (Pos.iter xO m d)~0) with (2 * Zpos (Pos.iter xO m d)). lia.
Qed.

Lemma shl_align_spec (m : positive) (e e' : Z) :
  snd (shl_align m e e') = Z.min e e' /\
  Zpos (fst (shl_align m e e')) = Zpos m * 2 ^ (e - Z.min e e').
Proof.
  unfold shl_align. destruct (e' - e) as [|d|d] eqn:Hd; cbn [fst snd].
  - replace (Z.min e e') with e by lia. rewrite Z.sub_diag. lia.
  - replace (Z.min e e') with e by lia. rewrite Z.sub_diag. lia.
  - replace (Z.min e e') with e' by lia. split; [reflexivity|].
    rewrite iter_xO. f_equal. f_equal. lia.
Qed.

Lemma IZR_shift (m s : Z) : 0 <= s -> IZR (m * 2 ^ s) = (IZR m * bpow s)%R.
Proof. intros Hs. rewrite mult_IZR, bpow_IZR by assumption. reflexivity. Qed.

Lemma shl_align_value (m : positive) (e e' : Z) :
  (IZR (Zpos (fst (shl_align m e e'))) * bpow (snd (shl_align m e e')) =
   IZR (Zpos m) * bpow e)%R.
Proof.
  destruct (shl_align_spec m e e') as [-> ->].
  rewrite IZR_shift by lia. rewrite Rmult_assoc, <- bpow_add.
  f_equal. f_equal. lia.
Qed.

Lemma digits_shift (m : positive) (q : positive) (s : Z) :
  0 <= s -> Zpos q = Zpos m * 2 ^ s ->
  Zpos (digits2_pos q) = Zpos (digits2_pos m) + s.
Proof.
  intros Hs Hq. apply Zdigits2_unique. rewrite Hq.
  pose proof (Zdigits2_bounds m) as [Hlo Hhi].
  assert (0 < 2 ^ s) by (apply Z.pow_pos_nonneg; lia).
  replace (Zpos (digits2_pos m) + s - 1) with ((Zpos (digits2_pos m) - 1) + s) by lia.
  rewrite !Z.pow_add_r by lia. split; nia.
Qed.

Lemma cexp_of_pos (m : positive) (e : Z) :
  cexp_of (IZR (Zpos m) * bpow e) (fexp (Zpos (digits2_pos m) + e)).
Proof.
  apply cexp_of_mag, mag_located. lra.
Qed.

Lemma binary_round_Fl (sx : bool) (m : positive) (e : Z) :
  binary_round prec emax sx m e =
  Fl sx (IZR (Zpos m) * bpow e) (fexp (Zpos (digits2_pos m) + e)).
Proof.
  unfold binary_round. fold (fexp (Zpos (digits2_pos m) + e)).
  set (t0 := fexp (Zpos (digits2_pos m) + e)).
  pose proof (shl_align_spec m e t0) as [He Hm].
  pose proof (shl_align_value m e t0) as Hv.
  destruct (shl_align m e t0) as [mz ez]. cbn [fst snd] in *.
  rewrite (binary_round_aux_Fl sx (Zpos mz) ez loc_Exact (IZR (Zpos mz)))
    by (simpl; lia || reflexivity).
  rewrite Hv. f_equal. cbn [Zdigits2].
  rewrite (digits_shift m mz (e - Z.min e t0)) by lia.
  replace (Zpos (digits2_pos m) + (e - Z.min e t0) + ez)
    with (Zpos (digits2_pos m) + e) by lia.
  fold t0. lia.
Qed.

Lemma binary_normalize_pos (m : positive) (e : Z) (sz : bool) :
  binary_normalize prec emax (Zpos m) e sz =
  Fl false (IZR (Zpos m) * bpow e) (fexp (Zpos (digits2_pos m) + e)).
Proof. apply binary_round_Fl. Qed.

(** ** Addition of two positive finite numbers *)

Lemma B2R_finite_pos (m : positive) (e : Z) :
  B2R (S754_finite false m e) = (IZR (Zpos m) * bpow e)%R.
Proof. cbn [B2R]. lra. Qed.

Lemma add_finite_Fl (mx : positive) (ex : Z) (my : positive) (ey : Z) :
  exists t,
    cexp_of (B2R (S754_finite false mx ex) + B2R (S754_finite false my ey)) t /\
    add (S754_finite false mx ex) (S754_finite false my ey) =
    Fl false (B2R (S754_finite false mx ex) + B2R (S754_finite false my ey)) t.
Proof.
  unfold add, SFadd. cbn [cond_Zopp].
  set (ez := Z.min ex ey).
  pose proof (shl_align_spec mx ex ez) as [_ Hx].
  pose proof (shl_align_spec my ey ez) as [_ Hy].
  replace (Z.min ex ez) with ez in Hx by lia.
  replace (Z.min ey ez) with ez in Hy by lia.
  rewrite Hx, Hy.
  assert (Hpos : 0 < Zpos mx * 2 ^ (ex - ez) + Zpos my * 2 ^ (ey - ez)).
  { assert (0 < 2 ^ (ex - ez)) by (apply Z.pow_pos_nonneg; lia).
    assert (0 < 2 ^ (ey - ez)) by (apply Z.pow_pos_nonneg; lia). nia. }
  destruct (Zpos mx * 2 ^ (ex - ez) + Zpos my * 2 ^ (ey - ez)) as [|M|M] eqn:HM; [lia| |lia].
  rewrite binary_normalize_pos.
  assert (Hv : (IZR (Zpos M) * bpow ez =
                B2R (S754_finite false mx ex) + B2R (S754_finite false my ey))%R).
  { rewrite <- HM, plus_IZR, !IZR_shift, !B2R_finite_pos by lia.
    rewrite Rmult_plus_distr_r, !Rmult_assoc, <- !bpow_add.
    replace (ex - ez + ez) with ex by lia. replace (ey - ez + ez) with ey by lia.
    reflexivity. }
  exists (fexp (Zpos (digits2_pos M) + ez)). rewrite <- Hv.
  split; [apply cexp_of_pos | reflexivity].
Qed.


(** ** Division of two positive finite numbers *)

Lemma new_location_located (nb k : Z) :
  0 < nb -> 0 <= k < nb ->
  located 0 (new_location nb k) (IZR k / IZR nb).
Proof.
  intros Hnb Hk.
  assert (Hnbr : (0 < IZR nb)%R) by (apply IZR_lt; assumption).
  assert (Hfrac : forall a b : R, (0 < b)%R -> (a / b * b = a)%R)
    by (intros a b Hb; field; lra).
  assert (Hlt : (IZR k / IZR nb < 1)%R).
  { apply Rmult_lt_reg_r with (IZR nb); [assumption|].
    rewrite Hfrac by assumption. rewrite Rmult_1_l. apply IZR_lt. lia. }
  assert (Hhalf : forall c : comparison,
             (2 * k ?= nb) = c ->
             match c with
             | Lt => (IZR k / IZR nb < 1 / 2)%R
             | Eq => (IZR k / IZR nb = 1 / 2)%R
             | Gt => (1 / 2 < IZR k / IZR nb)%R
             end).
  { intros c Hc. destruct c.
    - apply Z.compare_eq in Hc. rewrite <- Hc, mult_IZR. field.
      assert (0 < k) by lia. apply IZR_lt in H. lra.
    - rewrite Z.compare_lt_iff in Hc. apply IZR_lt in Hc. rewrite mult_IZR in Hc.
      apply Rmult_lt_reg_r with (IZR nb); [assumption|].
      rewrite Hfrac by assumption. lra.
    - rewrite Z.compare_gt_iff in Hc. apply IZR_lt in Hc. rewrite mult_IZR in Hc.
      apply Rmult_lt_reg_r with (IZR nb); [assumption|].
      rewrite Hfrac by assumption. lra. }
  assert (Hzero : k = 0 -> located 0 loc_Exact (IZR k / IZR nb)).
  { intros ->. cbn [located]. unfold Rdiv. apply Rmult_0_l. }
  assert (Hpos : k <> 0 -> (0 < IZR k / IZR nb)%R).
  { intros NE. apply Rdiv_lt_0_compat; [apply IZR_lt; lia | assumption]. }
  unfold new_location. destruct (Z.even nb) eqn:Hev.
  - unfold new_location_even.
    destruct (Z.eqb_spec k 0) as [E|NE]; [apply Hzero, E|].
    specialize (Hpos NE). cbn [located]. split; [simpl; lra|].
    specialize (Hhalf (2 * k ?= nb) eq_refl).
    destruct (2 * k ?= nb); simpl; lra.
  - unfold new_location_odd.
    destruct (Z.eqb_spec k 0) as [E|NE]; [apply Hzero, E|].
    specialize (Hpos NE). cbn [located]. split; [simpl; lra|].
    assert (Hodd : Z.odd nb = true) by (rewrite <- Z.negb_even, Hev; reflexivity).
    apply Z.odd_spec in Hodd. destruct Hodd as [j Hj].
    destruct (2 * k + 1 ?= nb) eqn:Hc.
    + apply Z.compare_eq in Hc.
      pose proof (Hhalf Lt ltac:(apply Z.compare_lt_iff; lia)). simpl in *. lra.
    + rewrite Z.compare_lt_iff in Hc.
      pose proof (Hhalf Lt ltac:(apply Z.compare_lt_iff; lia)). simpl in *. lra.
    + rewrite Z.compare_gt_iff in Hc.
      pose proof (Hhalf Gt ltac:(apply Z.compare_gt_iff; lia)). simpl in *. lra.
Qed.

Lemma located_shift (q : Z) (l : location) (f : R) :
  located 0 l f -> located q l (IZR q + f).
Proof.
  destruct l as [|c]; simpl.
  - intros ->. lra.
  - intros [H Hc]. split; [lra|]. destruct c; lra.
Qed.

Lemma div_core_located (mx : positive) (ex : Z) (my : positive) (ey : Z) :
  let '(q, e', l) := SFdiv_core_binary prec emax (Zpos mx) ex (Zpos my) ey in
  exists u,
    0 <= q /\ located q l u /\
    (u * bpow e' = IZR (Zpos mx) * bpow ex / (IZR (Zpos my) * bpow ey))%R /\
    e' <= fexp (Zpos (digits2_pos mx) + ex - (Zpos (digits2_pos my) + ey)) /\
    e' <= ex - ey.
Proof.
  unfold SFdiv_core_binary. cbn [Zdigits2].
  fold (fexp (Zpos (digits2_pos mx) + ex - (Zpos (digits2_pos my) + ey))).
  set (D0 := Zpos (digits2_pos mx) + ex - (Zpos (digits2_pos my) + ey)).
  set (e' := Z.min (fexp D0) (ex - ey)).
  set (s := ex - ey - e').
  assert (Hs : 0 <= s) by (unfold s, e'; lia).
  set (m' := match s with Z0 => Zpos mx | Zpos _ => Z.shiftl (Zpos mx) s | Zneg _ => 0 end).
  assert (Hm' : m' = Zpos mx * 2 ^ s).
  { unfold m'. destruct s as [|ps|ps] eqn:Es; [lia| |lia].
    apply Z.shiftl_mul_pow2. lia. }
  pose proof (Z_div_mod m' (Zpos my) ltac:(lia)) as Hdiv.
  destruct (Z.div_eucl m' (Zpos my)) as [q r]. destruct Hdiv as [Hqr Hr].
  assert (H2s : 0 < 2 ^ s) by (apply Z.pow_pos_nonneg; lia).
  assert (Hq : 0 <= q) by nia.
  exists (IZR q + IZR r / IZR (Zpos my))%R.
  split; [assumption|]. split.
  { apply located_shift, new_location_located; lia. }
  split; [|split; unfold e'; lia].
  assert (Hmy : (0 < IZR (Zpos my))%R) by (apply IZR_lt; lia).
  pose proof (bpow_pos ey) as Hey. pose proof (bpow_pos e') as He'.
  assert (Hu : (IZR q + IZR r / IZR (Zpos my) = IZR m' / IZR (Zpos my))%R).
  { rewrite Hqr, plus_IZR, mult_IZR. field. lra. }
  rewrite Hu, Hm', IZR_shift by assumption.
  assert (Hex : bpow ex = (bpow s * bpow e' * bpow ey)%R).
  { rewrite <- !bpow_add. f_equal. unfold s. lia. }
  rewrite Hex. field. split; lra.
Qed.

Lemma div_finite_Fl (mx : positive) (ex : Z) (my : positive) (ey : Z) :
  exists t,
    cexp_of (B2R (S754_finite false mx ex) / B2R (S754_finite false my ey)) t /\
    div (S754_finite false mx ex) (S754_finite false my ey) =
    Fl false (B2R (S754_finite false mx ex) / B2R (S754_finite false my ey)) t.
Proof.
  unfold div, SFdiv. cbn [xorb]. rewrite !B2R_finite_pos.
  pose proof (div_core_located mx ex my ey) as H.
  destruct (SFdiv_core_binary prec emax (Zpos mx) ex (Zpos my) ey) as [[q e'] l].
  destruct H as (u & Hq & Hloc & Hv & He' & He'').
  rewrite (binary_round_aux_Fl false q e' l u Hq Hloc), Hv.
  eexists. split; [|reflexivity]. rewrite <- Hv.
  set (D0 := Zpos (digits2_pos mx) + ex - (Zpos (digits2_pos my) + ey)) in *.
  (* a lower bound on the quotient *)
  assert (Hlow : (bpow (D0 - 1) < u * bpow e')%R).
  { rewrite Hv.
    pose proof (digits_bpow mx) as [Hxl _]. pose proof (digits_bpow my) as [_ Hyh].
    pose proof (bpow_pos ex). pose proof (bpow_pos ey).
    pose proof (bpow_pos (Zpos (digits2_pos mx) - 1)).
    assert (Hmy : (0 < IZR (Zpos my))%R) by (apply IZR_lt; lia).
    replace (D0 - 1) with ((Zpos (digits2_pos mx) - 1) + ex + - (Zpos (digits2_pos my) + ey))
      by (unfold D0; lia).
    rewrite !bpow_add, bpow_opp, bpow_add.
    apply Rmult_lt_reg_r with (IZR (Zpos my) * bpow ey)%R; [nra|].
    replace (IZR (Zpos mx) * bpow ex / (IZR (Zpos my) * bpow ey) * (IZR (Zpos my) * bpow ey))%R
      with (IZR (Zpos mx) * bpow ex)%R by (field; split; lra).
    replace (bpow (Zpos (digits2_pos mx) - 1) * bpow ex *
             / (bpow (Zpos (digits2_pos my)) * bpow ey) * (IZR (Zpos my) * bpow ey))%R
      with (bpow (Zpos (digits2_pos mx) - 1) * bpow ex *
            (IZR (Zpos my) / bpow (Zpos (digits2_pos my))))%R
      by (field; split; apply Rgt_not_eq; [assumption | apply bpow_pos]).
    pose proof (bpow_pos (Zpos (digits2_pos my))) as Hb.
    assert (Hfr : (IZR (Zpos my) / bpow (Zpos (digits2_pos my)) < 1)%R).
    { apply Rmult_lt_reg_r with (bpow (Zpos (digits2_pos my))); [assumption|].
      replace (IZR (Zpos my) / bpow (Zpos (digits2_pos my)) * bpow (Zpos (digits2_pos my)))%R
        with (IZR (Zpos my)) by (field; lra). lra. }
    set (fr := (IZR (Zpos my) / bpow (Zpos (digits2_pos my)))%R) in *.
    set (A := bpow (Zpos (digits2_pos mx) - 1)) in *.
    assert (HAE : (0 < A * bpow ex)%R) by (apply Rmult_lt_0_compat; assumption).
    assert (Hs1 : (A * bpow ex * fr < A * bpow ex * 1)%R)
      by (apply Rmult_lt_compat_l; assumption).
    assert (Hs2 : (A * bpow ex <= IZR (Zpos mx) * bpow ex)%R)
      by (apply Rmult_le_compat_r; lra).
    lra. }
  pose proof (located_floor _ _ _ Hloc) as Hfl.
  destruct q as [|q|q]; [| |lia].
  - (* the quotient is below one unit of the working grid *)
    cbn [Zdigits2]. pose proof (bpow_pos e') as Hbe.
    assert (Hup : (u * bpow e' < bpow e')%R) by (simpl in Hfl; nra).
    assert (HD : D0 - 1 < e') by (apply bpow_lt_inv; lra).
    rewrite fexp_eq in He'. rewrite fexp_eq.
    assert (Hem : e' <= -1074) by lia.
    replace (Z.max e' (Z.max (0 + e' - 53) (-1074))) with emin by (rewrite emin_eq; lia).
    left. split; [reflexivity|].
    pose proof (bpow_le e' (emin + prec) ltac:(rewrite emin_eq; unfold prec; lia)).
    pose proof (bpow_pos (D0 - 1)). lra.
  - cbn [Zdigits2].
    pose proof (mag_located q e' u Hfl) as Hmag.
    assert (HD : D0 - 1 < Zpos (digits2_pos q) + e') by (apply bpow_lt_inv; lra).
    replace (Z.max e' (fexp (Zpos (digits2_pos q) + e')))
      with (fexp (Zpos (digits2_pos q) + e'))
      by (rewrite fexp_eq in *; lia).
    apply cexp_of_mag, Hmag.
Qed.


(** ** Properties of the rounded value *)

Lemma cexp_of_le (v1 v2 : R) (t1 t2 : Z) :
  cexp_of v1 t1 -> cexp_of v2 t2 -> (v1 <= v2)%R -> t1 <= t2.
Proof.
  intros H1 H2 Hv. pose proof (cexp_of_ge_emin _ _ H2) as Ht2.
  destruct H1 as [[-> _]|[Ht1 [Hlo _]]]; [assumption|].
  pose proof (cexp_of_lt _ _ H2) as Hhi.
  assert (Hb : (bpow (t1 + prec - 1) < bpow (t2 + prec))%R) by lra.
  apply bpow_lt_inv in Hb. lia.
Qed.

Lemma rnd_le (v1 v2 : R) (t1 t2 : Z) :
  cexp_of v1 t1 -> cexp_of v2 t2 -> (v1 <= v2)%R -> (rnd v1 t1 <= rnd v2 t2)%R.
Proof.
  intros H1 H2 Hv. pose proof (cexp_of_le _ _ _ _ H1 H2 Hv) as Ht.
  unfold rnd. destruct (Z.eq_dec t1 t2) as [->|NE].
  - pose proof (bpow_pos t2) as Hb. pose proof (bpow_pos (- t2)) as Hb'.
    apply Rmult_le_compat_r; [lra|]. apply IZR_le, nearE_le.
    apply Rmult_le_compat_r; lra.
  - pose proof (nearE_range _ _ H1) as [[_ Hk1] _].
    pose proof (nearE_range _ _ H2) as [_ Hk2].
    pose proof (cexp_of_ge_emin _ _ H1) as Hm.
    specialize (Hk2 ltac:(lia)).
    apply IZR_le in Hk1, Hk2. rewrite <- bpow_IZR in Hk1, Hk2 by lia.
    pose proof (bpow_pos t1) as Hb1. pose proof (bpow_pos t2) as Hb2.
    pose proof (bpow_le (53 + t1) (52 + t2) ltac:(lia)) as Hle.
    rewrite !bpow_add in Hle.
    apply Rle_trans with (bpow 53 * bpow t1)%R; [apply Rmult_le_compat_r; lra|].
    apply Rle_trans with (bpow 52 * bpow t2)%R; [assumption|].
    apply Rmult_le_compat_r; lra.
Qed.

Lemma rnd_exact (v : R) (t n : Z) :
  (v * bpow (- t) = IZR n)%R -> rnd v t = v.
Proof.
  intros H. unfold rnd. rewrite H, nearE_IZR, <- H.
  rewrite Rmult_assoc, bpow_inv_l. lra.
Qed.

Lemma rnd_error (v : R) (t : Z) :
  (Rabs (rnd v t - v) <= bpow t / 2)%R.
Proof.
  unfold rnd. pose proof (nearE_bounds (v * bpow (- t))) as Hb.
  pose proof (bpow_pos t) as Ht.
  set (k := IZR (nearE (v * bpow (- t)))) in *.
  assert (Hv : v = (v * bpow (- t) * bpow t)%R)
    by (rewrite Rmult_assoc, bpow_inv_l; lra).
  replace (k * bpow t - v)%R
    with ((k - v * bpow (- t)) * bpow t)%R by (rewrite Hv at 2; ring).
  apply Rabs_le. split; nra.
Qed.

Lemma rnd_nonneg (v : R) (t : Z) : (0 <= v)%R -> (0 <= rnd v t)%R.
Proof.
  intros Hv. unfold rnd. pose proof (bpow_pos t). pose proof (bpow_pos (- t)).
  apply Rmult_le_pos; [|lra]. apply IZR_le, nearE_nonneg.
  apply Rmult_le_pos; lra.
Qed.

(** ** Valid finite numbers *)

Lemma bounded_inv (m : positive) (e : Z) :
  SpecFloat.bounded prec emax m e = true ->
  Zpos m < 2 ^ 53 /\ emin <= e <= emax - prec /\
  (emin < e -> 2 ^ 52 <= Zpos m) /\
  fexp (Zpos (digits2_pos m) + e) = e.
Proof.
  unfold SpecFloat.bounded, canonical_mantissa.
  fold (fexp (Zpos (digits2_pos m) + e)).
  intros H. apply andb_prop in H. destruct H as [Hc He].
  apply Z.eqb_eq in Hc. apply Z.leb_le in He.
  pose proof (Zdigits2_bounds m) as [Hlo Hhi].
  pose proof Hc as Hc'. rewrite fexp_eq in Hc'. rewrite emin_eq.
  assert (Hd : Zpos (digits2_pos m) <= 53) by lia.
  repeat split; try lia; try assumption.
  - assert (2 ^ Zpos (digits2_pos m) <= 2 ^ 53) by (apply Z.pow_le_mono_r; lia). lia.
  - intros Hgt. assert (Hd53 : Zpos (digits2_pos m) = 53) by lia.
    rewrite Hd53 in Hlo. exact Hlo.
Qed.

Lemma finite_nonneg_B2R (x : number) :
  finite_nonneg x = true -> (0 <= B2R x)%R.
Proof.
  destruct x as [s|s| |[] m e]; simpl; try discriminate; intros _; try lra.
  pose proof (bpow_pos e). assert (0 < IZR (Zpos m))%R by (apply IZR_lt; lia). nra.
Qed.

Lemma finite_pos_B2R (m : positive) (e : Z) :
  (0 < B2R (S754_finite false m e))%R.
Proof.
  rewrite B2R_finite_pos.
  pose proof (bpow_pos e). assert (0 < IZR (Zpos m))%R by (apply IZR_lt; lia). nra.
Qed.

Lemma cexp_of_finite (m : positive) (e : Z) :
  SpecFloat.bounded prec emax m e = true ->
  cexp_of (B2R (S754_finite false m e)) e.
Proof.
  intros H. destruct (bounded_inv m e H) as (_ & _ & _ & Hc).
  rewrite B2R_finite_pos. rewrite <- Hc at 2. apply cexp_of_pos.
Qed.

(** Rounding a number that is already a binary64 value changes nothing. *)
Lemma Fl_finite (m : positive) (e t : Z) :
  SpecFloat.bounded prec emax m e = true ->
  cexp_of (B2R (S754_finite false m e)) t ->
  Fl false (B2R (S754_finite false m e)) t = S754_finite false m e.
Proof.
  intros Hb Ht.
  rewrite (cexp_of_unique _ _ _ Ht (cexp_of_finite m e Hb)).
  destruct (bounded_inv m e Hb) as (Hm & [He1 He2] & _ & _).
  unfold Fl. rewrite B2R_finite_pos, Rmult_assoc, bpow_inv_r, Rmult_1_r, nearE_IZR.
  rewrite finish_lt by assumption.
  destruct (Z.leb_spec e (emax - prec)); [reflexivity|lia].
Qed.

Lemma rnd_finite (x : number) (t : Z) :
  finite_nonneg x = true -> cexp_of (B2R x) t -> rnd (B2R x) t = B2R x.
Proof.
  destruct x as [s|s| |[] m e]; simpl finite_nonneg; try discriminate; intros Hb Ht.
  - apply (rnd_exact _ _ 0). simpl. lra.
  - rewrite (cexp_of_unique _ _ _ Ht (cexp_of_finite m e Hb)).
    apply (rnd_exact _ _ (Zpos m)).
    rewrite B2R_finite_pos, Rmult_assoc, bpow_inv_r. lra.
Qed.

(** ** Comparison of numbers and of their real values *)

Lemma finite_lt_exp (m1 : positive) (e1 : Z) (m2 : positive) (e2 : Z) :
  SpecFloat.bounded prec emax m1 e1 = true ->
  SpecFloat.bounded prec emax m2 e2 = true ->
  e1 < e2 ->
  (B2R (S754_finite false m1 e1) < B2R (S754_finite false m2 e2))%R.
Proof.
  intros H1 H2 He.
  destruct (bounded_inv _ _ H1) as (Hm1 & [Hl1 _] & _ & _).
  destruct (bounded_inv _ _ H2) as (_ & _ & Hn2 & _).
  specialize (Hn2 ltac:(lia)).
  rewrite !B2R_finite_pos.
  apply IZR_lt in Hm1. apply IZR_le in Hn2.
  rewrite <- bpow_IZR in Hm1, Hn2 by lia.
  pose proof (bpow_pos e1) as Hb1. pose proof (bpow_pos e2) as Hb2.
  pose proof (bpow_le (53 + e1) (52 + e2) ltac:(lia)) as Hle.
  rewrite !bpow_add in Hle.
  apply Rlt_le_trans with (bpow 53 * bpow e1)%R; [apply Rmult_lt_compat_r; lra|].
  apply Rle_trans with (bpow 52 * bpow e2)%R; [assumption|].
  apply Rmult_le_compat_r; lra.
Qed.

Lemma SFcompare_B2R (x y : number) :
  finite_nonneg x = true -> finite_nonneg y = true ->
  exists c, SFcompare x y = Some c /\ Rcomp (B2R x) (B2R y) c.
Proof.
  destruct x as [sx|sx| |[] mx ex]; simpl finite_nonneg; try discriminate;
  destruct y as [sy|sy| |[] my ey]; simpl finite_nonneg; try discriminate;
  intros Hx Hy.
  - exists Eq. split; reflexivity.
  - exists Lt. split; [reflexivity|]. cbn [Rcomp].
    change (B2R (S754_zero sx)) with 0%R. apply finite_pos_B2R.
  - exists Gt. split; [reflexivity|]. cbn [Rcomp].
    change (B2R (S754_zero sy)) with 0%R. apply finite_pos_B2R.
  - cbn [SFcompare]. destruct (Z.compare_spec ex ey) as [E|L|G].
    + subst ey. rewrite Pos.compare_cont_spec. cbn [Pos.switch_Eq].
      exists (Pos.compare mx my). split; [destruct (Pos.compare mx my); reflexivity|].
      rewrite !B2R_finite_pos. pose proof (bpow_pos ex) as Hb.
      destruct (Pos.compare_spec mx my) as [E|L|G]; cbn [Rcomp].
      * subst. reflexivity.
      * apply Rmult_lt_compat_r; [assumption|]. apply IZR_lt. lia.
      * apply Rmult_lt_compat_r; [assumption|]. apply IZR_lt. lia.
    + exists Lt. split; [reflexivity|]. apply finite_lt_exp; assumption.
    + exists Gt. split; [reflexivity|]. apply finite_lt_exp; assumption.
Qed.

Lemma leb_B2R (x y : number) :
  finite_nonneg x = true -> finite_nonneg y = true ->
  (B2R x <= B2R y)%R -> leb x y = true.
Proof.
  intros Hx Hy Hle. destruct (SFcompare_B2R x y Hx Hy) as (c & Hc & Hr).
  unfold leb, SFleb. rewrite Hc. destruct c; try reflexivity.
  cbn [Rcomp] in Hr. lra.
Qed.

Lemma eqb_B2R (x y : number) :
  finite_nonneg x = true -> finite_nonneg y = true ->
  eqb x y = true <-> B2R x = B2R y.
Proof.
  intros Hx Hy. destruct (SFcompare_B2R x y Hx Hy) as (c & Hc & Hr).
  unfold eqb, SFeqb. rewrite Hc. destruct c; cbn [Rcomp] in Hr; split; intros H;
    try reflexivity; try assumption; try discriminate; lra.
Qed.


(** ** Addition and division on valid non-negative numbers *)

Lemma cexp_of_0 : cexp_of 0 emin.
Proof. left. split; [reflexivity|]. pose proof (bpow_pos (emin + prec)). lra. Qed.

Lemma rnd_0 (t : Z) : rnd 0 t = 0%R.
Proof. apply (rnd_exact _ _ 0). lra. Qed.

Lemma cexp_of_1 : cexp_of 1 (-52).
Proof.
  change (-52) with (fexp 1). apply cexp_of_mag.
  change (1 - 1) with 0. rewrite bpow_0, bpow_1. lra.
Qed.

Lemma rnd_1 : rnd 1 (-52) = 1%R.
Proof.
  apply (rnd_exact _ _ (2 ^ 52)). rewrite Rmult_1_l.
  change (- -52) with 52. apply bpow_IZR. lia.
Qed.

Lemma bpow_emax_gt_1 : (1 < bpow emax)%R.
Proof. rewrite <- bpow_0. apply bpow_lt. reflexivity. Qed.

Lemma cexp_of_B2R (x : number) :
  finite_nonneg x = true -> exists t, cexp_of (B2R x) t.
Proof.
  destruct x as [s|s| |[] m e]; simpl finite_nonneg; try discriminate; intros H.
  - exists emin. apply cexp_of_0.
  - exists e. apply cexp_of_finite, H.
Qed.

Lemma add_Fl (x y : number) :
  finite_nonneg x = true -> finite_nonneg y = true ->
  (0 < B2R x + B2R y)%R ->
  exists t, cexp_of (B2R x + B2R y) t /\ add x y = Fl false (B2R x + B2R y) t.
Proof.
  destruct x as [sx|sx| |[] mx ex]; simpl finite_nonneg; try discriminate;
  destruct y as [sy|sy| |[] my ey]; simpl finite_nonneg; try discriminate;
  intros Hx Hy Hpos.
  - simpl in Hpos. lra.
  - change (B2R (S754_zero sx)) with 0%R. rewrite Rplus_0_l.
    exists ey. split; [apply cexp_of_finite, Hy|].
    rewrite Fl_finite by (assumption || apply cexp_of_finite, Hy). reflexivity.
  - change (B2R (S754_zero sy)) with 0%R. rewrite Rplus_0_r.
    exists ex. split; [apply cexp_of_finite, Hx|].
    rewrite Fl_finite by (assumption || apply cexp_of_finite, Hx). reflexivity.
  - apply add_finite_Fl.
Qed.

Lemma add_spec (x y : number) :
  finite_nonneg x = true -> finite_nonneg y = true ->
  exists t, cexp_of (B2R x + B2R y) t /\
    (((rnd (B2R x + B2R y) t < bpow emax)%R /\
      finite_nonneg (add x y) = true /\
      B2R (add x y) = rnd (B2R x + B2R y) t) \/
     ((bpow emax <= rnd (B2R x + B2R y) t)%R /\
      add x y = S754_infinity false)).
Proof.
  intros Hx Hy.
  pose proof (finite_nonneg_B2R x Hx) as Hx0.
  pose proof (finite_nonneg_B2R y Hy) as Hy0.
  destruct (Rle_lt_dec (B2R x + B2R y) 0) as [Hz|Hpos].
  - assert (Hs : (B2R x + B2R y = 0)%R) by lra. rewrite Hs.
    exists emin. split; [apply cexp_of_0|]. left. rewrite rnd_0.
    split; [pose proof bpow_emax_gt_1; lra|].
    destruct x as [sx|sx| |[] mx ex]; simpl finite_nonneg in Hx; try discriminate;
    destruct y as [sy|sy| |[] my ey]; simpl finite_nonneg in Hy; try discriminate.
    + destruct sx, sy; split; reflexivity.
    + pose proof (finite_pos_B2R my ey). simpl B2R in Hs at 1. lra.
    + pose proof (finite_pos_B2R mx ex). lra.
    + pose proof (finite_pos_B2R mx ex). lra.
  - destruct (add_Fl x y Hx Hy Hpos) as (t & Ht & ->).
    exists t. split; [assumption|].
    destruct (Fl_spec _ _ Ht) as [Hfin Hinf].
    destruct (Rlt_le_dec (rnd (B2R x + B2R y) t) (bpow emax)) as [Hlt|Hge].
    + left. destruct (Hfin Hlt) as [H1 H2]. auto.
    + right. auto.
Qed.

(** The sum of two valid non-negative numbers is at least each of them. *)
Lemma add_ge_l (x y : number) :
  finite_nonneg x = true -> finite_nonneg y = true ->
  finite_nonneg (add x y) = true -> (B2R x <= B2R (add x y))%R.
Proof.
  intros Hx Hy Hs. destruct (add_spec x y Hx Hy) as (t & Ht & [(Hlt & _ & ->)|(_ & E)]).
  - destruct (cexp_of_B2R x Hx) as (tx & Htx).
    rewrite <- (rnd_finite x tx Hx Htx) at 1.
    apply rnd_le; try assumption. pose proof (finite_nonneg_B2R y Hy). lra.
  - rewrite E in Hs. discriminate.
Qed.

Lemma add_comm (x y : number) :
  finite_nonneg x = true -> finite_nonneg y = true -> add x y = add y x.
Proof.
  intros Hx Hy.
  destruct x as [sx|sx| |[] mx ex]; simpl finite_nonneg in Hx; try discriminate;
  destruct y as [sy|sy| |[] my ey]; simpl finite_nonneg in Hy; try discriminate.
  - destruct sx, sy; reflexivity.
  - reflexivity.
  - reflexivity.
  - unfold add, SFadd. rewrite (Z.min_comm ey ex). f_equal. apply Z.add_comm.
Qed.

Lemma add_ge_r (x y : number) :
  finite_nonneg x = true -> finite_nonneg y = true ->
  finite_nonneg (add x y) = true -> (B2R y <= B2R (add x y))%R.
Proof.
  intros Hx Hy Hs. rewrite add_comm in * by assumption. apply add_ge_l; assumption.
Qed.

Lemma div_zero_l (s : bool) (m : positive) (e : Z) :
  div (S754_zero s) (S754_finite false m e) = S754_zero s.
Proof. destruct s; reflexivity. Qed.

(** A quotient [x / y] with [0 <= x <= y] lies between 0 and 1. *)
Lemma div_le_1 (x : number) (m : positive) (e : Z) :
  finite_nonneg x = true ->
  (B2R x <= B2R (S754_finite false m e))%R ->
  finite_nonneg (div x (S754_finite false m e)) = true /\
  (0 <= B2R (div x (S754_finite false m e)) <= 1)%R /\
  exists t, cexp_of (B2R x / B2R (S754_finite false m e)) t /\
            B2R (div x (S754_finite false m e)) =
            rnd (B2R x / B2R (S754_finite false m e)) t.
Proof.
  intros Hx Hle. pose proof (finite_pos_B2R m e) as Hp.
  destruct x as [sx|sx| |[] mx ex]; simpl finite_nonneg in Hx; try discriminate.
  - rewrite div_zero_l. change (B2R (S754_zero sx)) with 0%R.
    split; [reflexivity|]. split; [lra|].
    exists emin. unfold Rdiv. rewrite Rmult_0_l.
    split; [apply cexp_of_0 | symmetry; apply rnd_0].
  - destruct (div_finite_Fl mx ex m e) as (t & Ht & ->).
    set (v := (B2R (S754_finite false mx ex) / B2R (S754_finite false m e))%R) in *.
    pose proof (finite_pos_B2R mx ex) as Hxp.
    assert (Hv : (0 < v <= 1)%R).
    { unfold v. split; [apply Rdiv_lt_0_compat; assumption|].
      apply Rmult_le_reg_r with (B2R (S754_finite false m e)); [assumption|].
      replace (B2R (S754_finite false mx ex) / B2R (S754_finite false m e) *
               B2R (S754_finite false m e))%R
        with (B2R (S754_finite false mx ex)) by (field; lra). lra. }
    pose proof (rnd_le v 1 t (-52) Ht cexp_of_1 ltac:(lra)) as Hr. rewrite rnd_1 in Hr.
    pose proof (rnd_nonneg v t ltac:(lra)) as Hr0.
    destruct (Fl_spec v t Ht) as [Hfin _].
    destruct (Hfin ltac:(pose proof bpow_emax_gt_1; lra)) as [H1 H2].
    split; [assumption|]. split; [lra|]. exists t. auto.
Qed.

(** ** Integer values *)

Lemma Zvalue_B2R (x : number) (n : Z) : Zvalue x = Some n -> B2R x = IZR n.
Proof.
  destruct x as [s|s| |s m e]; cbn [Zvalue]; try discriminate.
  - intros [= <-]. reflexivity.
  - destruct (Z.leb_spec 0 e) as [He|He].
    + intros H. assert (E : n = cond_Zopp s (Zpos m * 2 ^ e)) by congruence.
      subst n. clear H. cbn [B2R]. destruct s; cbn [cond_Zopp];
        rewrite ?opp_IZR, IZR_shift by assumption; lra.
    + destruct (Z.eqb_spec (Zpos m mod 2 ^ (- e)) 0) as [Hm|Hm]; [|discriminate].
      intros H. assert (E : n = cond_Zopp s (Zpos m / 2 ^ (- e))) by congruence.
      subst n. clear H. cbn [B2R].
      assert (H2 : 0 < 2 ^ (- e)) by (apply Z.pow_pos_nonneg; lia).
      assert (Hd : Zpos m = Zpos m / 2 ^ (- e) * 2 ^ (- e)).
      { pose proof (Z.div_mod (Zpos m) (2 ^ (- e)) ltac:(lia)). lia. }
      assert (Hr : IZR (Zpos m) = (IZR (Zpos m / 2 ^ (- e)) * bpow (- e))%R).
      { rewrite <- IZR_shift by lia. f_equal. exact Hd. }
      rewrite Hr. destruct s; cbn [cond_Zopp]; rewrite ?opp_IZR;
        rewrite !Rmult_assoc, bpow_inv_l; lra.
Qed.

Lemma nonneg_integer_finite (x : number) :
  nonneg_integer x = true -> finite_nonneg x = true.
Proof.
  unfold nonneg_integer. intros H. apply andb_prop in H. destruct H as [Hv Hz].
  destruct x as [s|s| |s m e]; cbn [valid_binary Zvalue finite_nonneg] in *;
    try discriminate; try reflexivity.
  destruct s; [|assumption].
  exfalso. cbn [cond_Zopp] in Hz.
  assert (H2 : forall k, 0 <= k -> 0 < 2 ^ k) by (intros; apply Z.pow_pos_nonneg; lia).
  destruct (Z.leb_spec 0 e) as [He|He].
  - apply Z.leb_le in Hz. specialize (H2 e He). nia.
  - destruct (Z.eqb_spec (Zpos m mod 2 ^ (- e)) 0) as [Hm|Hm]; [|discriminate].
    apply Z.leb_le in Hz. specialize (H2 (- e) ltac:(lia)).
    pose proof (Z.div_mod (Zpos m) (2 ^ (- e)) ltac:(lia)).
    assert (0 < Zpos m / 2 ^ (- e)) by nia. lia.
Qed.

Lemma B2R_Zvalue (x : number) (n : Z) :
  finite_nonneg x = true -> B2R x = IZR n ->
  Zvalue x = Some n /\ nonneg_integer x = true.
Proof.
  intros Hx Hn.
  assert (Hn0 : 0 <= n).
  { apply le_IZR. rewrite <- Hn. apply finite_nonneg_B2R, Hx. }
  assert (Hz : Zvalue x = Some n).
  { destruct x as [s|s| |[] m e]; simpl finite_nonneg in Hx; try discriminate.
    - simpl in *. apply eq_IZR in Hn. congruence.
    - rewrite B2R_finite_pos in Hn. cbn [Zvalue]. cbn [cond_Zopp].
      destruct (Z.leb_spec 0 e) as [He|He].
      + rewrite <- IZR_shift in Hn by assumption. apply eq_IZR in Hn. congruence.
      + assert (Hm : Zpos m = n * 2 ^ (- e)).
        { apply eq_IZR. rewrite IZR_shift by lia. rewrite <- Hn.
          rewrite Rmult_assoc, bpow_inv_r. lra. }
        assert (H2 : 0 < 2 ^ (- e)) by (apply Z.pow_pos_nonneg; lia).
        rewrite Hm, Z.mod_mul, Z.div_mul by lia. reflexivity. }
  split; [assumption|]. unfold nonneg_integer. rewrite Hz.
  apply andb_true_intro. split; [|apply Z.leb_le; assumption].
  destruct x as [s|s| |[] m e]; simpl in *; try discriminate; auto.
Qed.


(** ** Safe division *)

Lemma eqb_zero_iff (d : number) :
  eqb d (of_Z 0) = true <-> exists s, d = S754_zero s.
Proof.
  split.
  - destruct d as [s|s| |s m e]; try discriminate.
    + intros _. exists s. reflexivity.
    + destruct s; discriminate.
    + destruct s; discriminate.
  - intros [s ->]. reflexivity.
Qed.

Lemma divide_zero (n d : number) :
  (exists s, d = S754_zero s) -> divide n d = NaN.
Proof. intros H. apply eqb_zero_iff in H. unfold divide. rewrite H. reflexivity. Qed.

Lemma divide_nonzero (n d : number) :
  (forall s, d <> S754_zero s) -> divide n d = div n d.
Proof.
  intros H. unfold divide. destruct (eqb d (of_Z 0)) eqn:E; [|reflexivity].
  apply eqb_zero_iff in E. destruct E as [s E]. exfalso. exact (H s E).
Qed.

Lemma divide_eqb_zero (n d : number) :
  eqb d (of_Z 0) = true -> divide n d = NaN.
Proof. intros H. unfold divide. rewrite H. reflexivity. Qed.

Lemma binary_normalize_not_nan (m e : Z) (sz : bool) :
  binary_normalize prec emax m e sz <> NaN.
Proof.
  destruct m as [|p|p]; cbn [binary_normalize]; [discriminate| |];
    unfold binary_round;
    destruct (shl_align p e _) as [mz ez];
    apply binary_round_aux_not_nan; lia.
Qed.

Lemma sub_one_nan (x : number) : sub (of_Z 1) x = NaN <-> x = NaN.
Proof.
  split; [|intros ->; reflexivity].
  destruct x as [s|s| |s m e]; try discriminate; [reflexivity|].
  change (of_Z 1) with (S754_finite false 4503599627370496 (-52)).
  unfold sub, SFsub. intros H. exfalso. revert H. apply binary_normalize_not_nan.
Qed.


(** * Properties stated by the specification *)

(** C1: every derived field of [computeMetricsFromCounts] is the formula
    of the specification.  [divide n d] is [NaN] when [d] is a zero and
    [n / d] otherwise; every ratio goes through [divide]; [fdr] and [for]
    are the plain subtractions [1 - ppv] and [1 - npv], and each of them is
    [NaN] exactly when [ppv] (resp. [npv]) is. *)
Theorem C1_formulas (c : ConfusionCounts) :
  let m := computeMetricsFromCounts c in
  let positive := (tp c + fn c)%num in
  let negative := (tn c + fp c)%num in
  (forall n d, (exists s, d = S754_zero s) -> divide n d = NaN) /\
  (forall n d, (forall s, d <> S754_zero s) -> divide n d = (n / d)%num) /\
  total m = (positive + negative)%num /\
  tpr m = divide (tp c) positive /\
  fnr m = divide (fn c) positive /\
  tnr m = divide (tn c) negative /\
  fpr m = divide (fp c) negative /\
  ppv m = divide (tp c) (tp c + fp c)%num /\
  npv m = divide (tn c) (tn c + fn c)%num /\
  prevalence m = divide positive (total m) /\
  accuracy m = divide (tp c + tn c)%num (total m) /\
  lrPlus m = divide (tpr m) (fpr m) /\
  lrMinus m = divide (fnr m) (tnr m) /\
  dor m = divide (tp c * tn c)%num (fp c * fn c)%num /\
  f1 m = divide (2 * tp c)%num (2 * tp c + fp c + fn c)%num /\
  mcc m = divide (tp c * tn c - fp c * fn c)%num
                 (sqrt ((tp c + fp c) * (tp c + fn c) * (tn c + fp c) * (tn c + fn c))%num) /\
  ts m = divide (tp c) (tp c + fp c + fn c)%num /\
  fdr m = (1 - ppv m)%num /\
  _for m = (1 - npv m)%num /\
  markedness m = (ppv m + npv m - 1)%num /\
  balancedAccuracy m = ((tpr m + tnr m) / 2)%num /\
  fm m = sqrt (ppv m * tpr m)%num /\
  (fdr m = NaN <-> ppv m = NaN) /\
  (_for m = NaN <-> npv m = NaN).
Proof.
  intros m positive negative.
  split; [exact divide_zero|]. split; [exact divide_nonzero|].
  repeat (split; [reflexivity|]).
  split; apply sub_one_nan.
Qed.

(** C3: [computeCountsFromLabels] throws the length-mismatch error exactly
    when the two arrays differ in length, and returns counts (never an
    error) when the lengths agree. *)
Theorem C3_length_mismatch (predicted actual : list value) (positiveValue : value) :
  (List.length predicted <> List.length actual <->
   computeCountsFromLabels predicted actual positiveValue = Throw length_mismatch) /\
  (List.length predicted = List.length actual <->
   exists c, computeCountsFromLabels predicted actual positiveValue = Ok c) /\
  (forall e, computeCountsFromLabels predicted actual positiveValue = Throw e ->
             e = length_mismatch).
Proof.
  unfold computeCountsFromLabels.
  destruct (Nat.eqb_spec (List.length predicted) (List.length actual)) as [E|NE];
    cbn [negb].
  - split; [split; [intros H; exfalso; exact (H E) | discriminate]|].
    split; [split; [intros _; eexists; reflexivity | intros _; exact E]|].
    discriminate.
  - split; [split; [reflexivity | intros _; exact NE]|].
    split; [split; [intros H; exfalso; exact (NE H) | intros [c Hc]; discriminate]|].
    intros e H. congruence.
Qed.

(** C4: [computeMetricsFromCounts] is a total function into
    [ConfusionMetrics] (no [Throw] exists on its path): a ratio whose
    denominator is zero is [NaN], and the all-zero counts give [total = 0]
    with every derived field [NaN]. *)
Theorem C4_degenerate_is_NaN :
  (forall c : ConfusionCounts,
     let m := computeMetricsFromCounts c in
     ((tp c + fn c === 0)%num = true -> tpr m = NaN /\ fnr m = NaN) /\
     ((tn c + fp c === 0)%num = true -> tnr m = NaN /\ fpr m = NaN) /\
     ((tp c + fp c === 0)%num = true -> ppv m = NaN /\ fdr m = NaN) /\
     ((tn c + fn c === 0)%num = true -> npv m = NaN /\ _for m = NaN) /\
     ((total m === 0)%num = true -> prevalence m = NaN /\ accuracy m = NaN) /\
     ((fpr m === 0)%num = true -> lrPlus m = NaN) /\
     ((tnr m === 0)%num = true -> lrMinus m = NaN) /\
     ((fp c * fn c === 0)%num = true -> dor m = NaN) /\
     ((2 * tp c + fp c + fn c === 0)%num = true -> f1 m = NaN) /\
     ((tp c + fp c + fn c === 0)%num = true -> ts m = NaN)) /\
  computeMetricsFromCounts {| tp := 0; tn := 0; fp := 0; fn := 0 |} =
  {| counts := {| tp := 0; tn := 0; fp := 0; fn := 0 |};
     total := 0;
     prevalence := NaN; tpr := NaN; fpr := NaN; fnr := NaN; tnr := NaN;
     ppv := NaN; npv := NaN; lrPlus := NaN; lrMinus := NaN; accuracy := NaN;
     fdr := NaN; _for := NaN; markedness := NaN; dor := NaN;
     balancedAccuracy := NaN; f1 := NaN; fm := NaN; mcc := NaN; ts := NaN |}.
Proof.
  split; [|reflexivity].
  intros c m.
  repeat split; cbn [m computeMetricsFromCounts tpr fnr tnr fpr ppv npv
    prevalence accuracy lrPlus lrMinus dor f1 ts fdr _for];
    try (apply divide_eqb_zero; assumption);
    rewrite divide_eqb_zero by assumption; reflexivity.
Qed.

(** C5: [computeMetricsFromLabels] is [computeMetricsFromCounts] applied to
    the result of [computeCountsFromLabels]; it fails exactly when the
    latter does, with the same error. *)
Theorem C5_facade (predicted actual : list value) (positiveValue : value) :
  computeMetricsFromLabels predicted actual positiveValue =
  match computeCountsFromLabels predicted actual positiveValue with
  | Ok c => Ok (computeMetricsFromCounts c)
  | Throw e => Throw e
  end /\
  (forall e, computeMetricsFromLabels predicted actual positiveValue = Throw e <->
             computeCountsFromLabels predicted actual positiveValue = Throw e) /\
  (forall m, computeMetricsFromLabels predicted actual positiveValue = Ok m <->
             exists c, computeCountsFromLabels predicted actual positiveValue = Ok c /\
                       m = computeMetricsFromCounts c).
Proof.
  unfold computeMetricsFromLabels, bind.
  destruct (computeCountsFromLabels predicted actual positiveValue) as [c|e0].
  - split; [reflexivity|]. split.
    + intros e. split; discriminate.
    + intros m. split.
      * intros [= <-]. exists c. split; reflexivity.
      * intros (c' & [= <-] & ->). reflexivity.
  - split; [reflexivity|]. split.
    + intros e. split; intros [= <-]; reflexivity.
    + intros m. split; [discriminate|]. intros (c' & Hc & _). discriminate.
Qed.

(** ** Exchanging predicted and actual *)

Lemma step_swap (predicted actual : list value) (pv : value)
    (c : ConfusionCounts) (i : nat) :
  step actual predicted pv (swap_counts c) i =
  swap_counts (step predicted actual pv c i).
Proof.
  unfold step.
  destruct (isPositive pv (get predicted i)), (isPositive pv (get actual i));
    reflexivity.
Qed.

Lemma fold_step_swap (predicted actual : list value) (pv : value)
    (l : list nat) (c : ConfusionCounts) :
  fold_left (step actual predicted pv) l (swap_counts c) =
  swap_counts (fold_left (step predicted actual pv) l c).
Proof.
  revert c. induction l as [|i l IH]; intros c; cbn [fold_left]; [reflexivity|].
  rewrite step_swap. apply IH.
Qed.

(** C10: for arrays of equal length, exchanging [predicted] and [actual]
    keeps [tp] and [tn] and exchanges [fp] with [fn]. *)
Theorem C10_swap (predicted actual : list value) (positiveValue : value) :
  List.length predicted = List.length actual ->
  exists c c',
    computeCountsFromLabels predicted actual positiveValue = Ok c /\
    computeCountsFromLabels actual predicted positiveValue = Ok c' /\
    tp c' = tp c /\ tn c' = tn c /\ fp c' = fn c /\ fn c' = fp c.
Proof.
  intros Hlen. unfold computeCountsFromLabels.
  rewrite <- Hlen, Nat.eqb_refl. cbn [negb].
  eexists. eexists. split; [reflexivity|]. split; [reflexivity|].
  change {| tp := 0; tn := 0; fp := 0; fn := 0 |}%num
    with (swap_counts {| tp := 0; tn := 0; fp := 0; fn := 0 |}%num) at 1 3 5 7.
  rewrite fold_step_swap. repeat split; reflexivity.
Qed.

Lemma C10_swap_witness :
  exists c c',
    computeCountsFromLabels [VBoolean true; VBoolean false] [VBoolean false; VBoolean false]
                            VUndefined = Ok c /\
    computeCountsFromLabels [VBoolean false; VBoolean false] [VBoolean true; VBoolean false]
                            VUndefined = Ok c' /\
    tp c' = tp c /\ tn c' = tn c /\ fp c' = fn c /\ fn c' = fp c.
Proof. apply C10_swap. reflexivity. Defined.


(** ** Integers up to 2^53 are exact *)

Lemma of_Z_pos_Fl (p : positive) :
  of_Z (Zpos p) = Fl false (IZR (Zpos p)) (fexp (Zpos (digits2_pos p) + 0)) /\
  cexp_of (IZR (Zpos p)) (fexp (Zpos (digits2_pos p) + 0)).
Proof.
  pose proof (cexp_of_pos p 0) as Hc. unfold of_Z.
  rewrite binary_normalize_pos. rewrite bpow_0, Rmult_1_r in *. auto.
Qed.

Lemma of_Z_spec (n : Z) :
  0 <= n <= 2 ^ 53 ->
  finite_nonneg (of_Z n) = true /\ B2R (of_Z n) = IZR n.
Proof.
  intros [Hn0 Hn1]. destruct n as [|p|p]; [split; reflexivity| |lia].
  destruct (Z.eq_dec (Zpos p) (2 ^ 53)) as [E|NE].
  { rewrite E. split; [reflexivity|].
    change (of_Z (2 ^ 53)) with (S754_finite false 4503599627370496 1).
    rewrite B2R_finite_pos, bpow_1. change (2 ^ 53) with 9007199254740992. lra. }
  destruct (of_Z_pos_Fl p) as [-> Hc].
  set (t := fexp (Zpos (digits2_pos p) + 0)) in *.
  assert (Ht : t <= 0).
  { unfold t. rewrite fexp_eq. pose proof (digits_le p 53 ltac:(lia) ltac:(lia)). lia. }
  assert (Hr : rnd (IZR (Zpos p)) t = IZR (Zpos p)).
  { apply (rnd_exact _ _ (Zpos p * 2 ^ (- t))). rewrite IZR_shift by lia. reflexivity. }
  destruct (Fl_spec _ _ Hc) as [Hfin _]. rewrite Hr in Hfin.
  apply Hfin. rewrite bpow_IZR by (unfold emax; lia). apply IZR_lt.
  assert (2 ^ 53 < 2 ^ emax) by (apply Z.pow_lt_mono_r; unfold emax; lia). lia.
Qed.

Lemma of_Z_add (a b : Z) :
  0 <= a -> 0 <= b -> a + b <= 2 ^ 53 ->
  add (of_Z a) (of_Z b) = of_Z (a + b).
Proof.
  intros Ha Hb Hab.
  destruct (of_Z_spec a ltac:(lia)) as [Fa Ra].
  destruct (of_Z_spec b ltac:(lia)) as [Fb Rb].
  destruct (Z.eq_dec (a + b) 0) as [E|NE].
  { assert (a = 0) by lia. assert (b = 0) by lia. subst. reflexivity. }
  destruct (a + b) as [|p|p] eqn:Hp; [lia| |lia].
  assert (Hsum : (B2R (of_Z a) + B2R (of_Z b) = IZR (Zpos p))%R)
    by (rewrite Ra, Rb, <- plus_IZR, Hp; reflexivity).
  destruct (add_Fl (of_Z a) (of_Z b) Fa Fb) as (t & Ht & ->).
  { rewrite Hsum. apply IZR_lt. lia. }
  destruct (of_Z_pos_Fl p) as [-> Hc].
  rewrite Hsum in *. rewrite (cexp_of_unique _ _ _ Ht Hc). reflexivity.
Qed.

Lemma of_Z_succ (n : Z) : 0 <= n < 2 ^ 53 -> add (of_Z n) (of_Z 1) = of_Z (n + 1).
Proof. intros H. apply of_Z_add; lia. Qed.

Lemma of_Z_Zvalue (n : Z) :
  0 <= n <= 2 ^ 53 -> Zvalue (of_Z n) = Some n /\ nonneg_integer (of_Z n) = true.
Proof.
  intros H. destruct (of_Z_spec n H) as [Hf Hr]. apply B2R_Zvalue; assumption.
Qed.

(** ** The counting loop *)

Lemma cnt_cons (f : nat -> bool) (i : nat) (l : list nat) :
  cnt f (i :: l) = (if f i then 1 else 0) + cnt f l.
Proof.
  unfold cnt. cbn [filter]. destruct (f i); cbn [List.length]; lia.
Qed.

Lemma cnt_nonneg (f : nat -> bool) (l : list nat) : 0 <= cnt f l.
Proof. unfold cnt. lia. Qed.

Lemma cnt_le_length (f : nat -> bool) (l : list nat) :
  cnt f l <= Z.of_nat (List.length l).
Proof. unfold cnt. pose proof (filter_length_le f l). lia. Qed.

(** Every index falls in exactly one of the four buckets. *)
Lemma cnt_partition (P A : nat -> bool) (l : list nat) :
  cnt (fun i => P i && A i) l + cnt (fun i => negb (P i) && negb (A i)) l +
  cnt (fun i => P i && negb (A i)) l + cnt (fun i => negb (P i) && A i) l =
  Z.of_nat (List.length l).
Proof.
  induction l as [|i l IH]; [reflexivity|].
  rewrite !cnt_cons. cbn [List.length]. destruct (P i), (A i); cbn [andb negb]; lia.
Qed.

Section Loop.

Variables (predicted actual : list value) (positiveValue : value).

Lemma fold_step_counts (l : list nat) (a b c d : Z) :
  0 <= a -> 0 <= b -> 0 <= c -> 0 <= d ->
  a + b + c + d + Z.of_nat (List.length l) <= 2 ^ 53 ->
  fold_left (step predicted actual positiveValue) l
            {| tp := of_Z a; tn := of_Z b; fp := of_Z c; fn := of_Z d |} =
  {| tp := of_Z (a + cnt (fun i => isPositive positiveValue (get predicted i) &&
                                   isPositive positiveValue (get actual i)) l);
     tn := of_Z (b + cnt (fun i => negb (isPositive positiveValue (get predicted i)) &&
                                   negb (isPositive positiveValue (get actual i))) l);
     fp := of_Z (c + cnt (fun i => isPositive positiveValue (get predicted i) &&
                                   negb (isPositive positiveValue (get actual i))) l);
     fn := of_Z (d + cnt (fun i => negb (isPositive positiveValue (get predicted i)) &&
                                   isPositive positiveValue (get actual i)) l) |}.
Proof.
  revert a b c d. induction l as [|i l IH]; intros a b c d Ha Hb Hc Hd Hsum.
  - cbn [fold_left]. unfold cnt. cbn [filter List.length Z.of_nat].
    rewrite !Z.add_0_r. reflexivity.
  - cbn [fold_left]. cbn [List.length] in Hsum. rewrite !cnt_cons.
    unfold step. cbn [tp tn fp fn].
    destruct (isPositive positiveValue (get predicted i)),
             (isPositive positiveValue (get actual i)); cbn [andb negb];
      rewrite of_Z_succ by lia; rewrite IH by lia; f_equal; f_equal; lia.
Qed.

(** The counts returned for two arrays of equal length. *)
Lemma counts_of_equal_length :
  List.length predicted = List.length actual ->
  Z.of_nat (List.length predicted) <= 2 ^ 53 ->
  computeCountsFromLabels predicted actual positiveValue =
  Ok {| tp := of_Z (count_indexes (List.length predicted)
                      (fun i => isPositive positiveValue (get predicted i) &&
                                isPositive positiveValue (get actual i)));
        tn := of_Z (count_indexes (List.length predicted)
                      (fun i => negb (isPositive positiveValue (get predicted i)) &&
                                negb (isPositive positiveValue (get actual i))));
        fp := of_Z (count_indexes (List.length predicted)
                      (fun i => isPositive positiveValue (get predicted i) &&
                                negb (isPositive positiveValue (get actual i))));
        fn := of_Z (count_indexes (List.length predicted)
                      (fun i => negb (isPositive positiveValue (get predicted i)) &&
                                isPositive positiveValue (get actual i))) |}.
Proof.
  intros Hlen Hn.
  unfold computeCountsFromLabels. rewrite Hlen, Nat.eqb_refl. cbn [negb].
  rewrite <- Hlen. f_equal.
  rewrite (fold_step_counts _ 0 0 0 0); try lia; [reflexivity|].
  rewrite length_seq. lia.
Qed.

End Loop.


(** ** Default positivity of strings *)

Ltac ascii_cases c :=
  destruct c as [[] [] [] [] [] [] [] []]; vm_compute;
  (split; [intros H; first [discriminate H | now left | now right]
          | intros [H|H]; first [discriminate H | reflexivity]]).

Lemma lower_char_t (c : ascii) :
  lower_char c = "t"%char <-> c = "t"%char \/ c = "T"%char.
Proof. ascii_cases c. Qed.

Lemma lower_char_r (c : ascii) :
  lower_char c = "r"%char <-> c = "r"%char \/ c = "R"%char.
Proof. ascii_cases c. Qed.

Lemma lower_char_u (c : ascii) :
  lower_char c = "u"%char <-> c = "u"%char \/ c = "U"%char.
Proof. ascii_cases c. Qed.

Lemma lower_char_e (c : ascii) :
  lower_char c = "e"%char <-> c = "e"%char \/ c = "E"%char.
Proof. ascii_cases c. Qed.

Lemma toLowerCase_true (s : string) :
  toLowerCase s = "true"%string <-> true_ignoring_case s.
Proof.
  split.
  - destruct s as [|c1 [|c2 [|c3 [|c4 [|c5 s]]]]]; cbn [toLowerCase]; try discriminate.
    intros H. injection H as H1 H2 H3 H4.
    exists c1, c2, c3, c4. split; [reflexivity|].
    rewrite <- lower_char_t, <- lower_char_r, <- lower_char_u, <- lower_char_e. auto.
  - intros (c1 & c2 & c3 & c4 & -> & H1 & H2 & H3 & H4).
    apply lower_char_t in H1. apply lower_char_r in H2.
    apply lower_char_u in H3. apply lower_char_e in H4.
    cbn [toLowerCase]. rewrite H1, H2, H3, H4. reflexivity.
Qed.

Lemma isPositive_spec (positiveValue v : value) :
  isPositive positiveValue v = true <-> positive_spec positiveValue v.
Proof.
  unfold isPositive, positive_spec.
  destruct positiveValue; cbn [strict_eq negb]; try reflexivity.
  destruct v; cbn [strict_eq]; try (split; [discriminate | contradiction]).
  - destruct b; cbn [Bool.eqb]; split; congruence.
  - reflexivity.
  - rewrite orb_true_iff, !String.eqb_eq, toLowerCase_true. reflexivity.
Qed.

(** C2: for two arrays of equal length, [computeCountsFromLabels] returns in
    each bucket the number of indexes that fall into it ([tp]: both
    positive, [fp]: only predicted, [fn]: only actual, [tn]: neither), and
    an element is positive exactly as the specification says: equal
    ([===]) to [positiveValue] when one is supplied, and otherwise [true],
    the number [1], or a string that is ["1"] or ["true"] up to case; every
    other value is negative.  The length bound holds for every JavaScript
    array (whose length is below 2^32). *)
Theorem C2_bucket_counts (predicted actual : list value) (positiveValue : value) :
  List.length predicted = List.length actual ->
  Z.of_nat (List.length predicted) <= 2 ^ 53 ->
  let P i := isPositive positiveValue (get predicted i) in
  let A i := isPositive positiveValue (get actual i) in
  let n := List.length predicted in
  (forall v, isPositive positiveValue v = true <-> positive_spec positiveValue v) /\
  computeCountsFromLabels predicted actual positiveValue =
  Ok {| tp := of_Z (count_indexes n (fun i => P i && A i));
        tn := of_Z (count_indexes n (fun i => negb (P i) && negb (A i)));
        fp := of_Z (count_indexes n (fun i => P i && negb (A i)));
        fn := of_Z (count_indexes n (fun i => negb (P i) && A i)) |}.
Proof.
  intros Hlen Hn P A n. split; [apply isPositive_spec|].
  apply counts_of_equal_length; assumption.
Qed.

Lemma C2_bucket_counts_witness :
  let predicted := [VString "TRUE"; VString "1"; VString "yes"; VNumber (of_Z 1)] in
  let actual := [VBoolean true; VNumber (of_Z 0); VNull; VString "True"] in
  computeCountsFromLabels predicted actual VUndefined =
  Ok {| tp := of_Z 2; tn := of_Z 1; fp := of_Z 1; fn := of_Z 0 |}.
Proof.
  intros predicted actual.
  refine (proj2 (C2_bucket_counts predicted actual VUndefined _ _)).
  - reflexivity.
  - vm_compute. discriminate.
Defined.

(** C9: for two arrays of equal length the four counts are non-negative
    integers whose sum is the common length. *)
Theorem C9_counts_sum (predicted actual : list value) (positiveValue : value) :
  List.length predicted = List.length actual ->
  Z.of_nat (List.length predicted) <= 2 ^ 53 ->
  exists (c : ConfusionCounts) (ntp ntn nfp nfn : Z),
    computeCountsFromLabels predicted actual positiveValue = Ok c /\
    nonneg_integer (tp c) = true /\ Zvalue (tp c) = Some ntp /\
    nonneg_integer (tn c) = true /\ Zvalue (tn c) = Some ntn /\
    nonneg_integer (fp c) = true /\ Zvalue (fp c) = Some nfp /\
    nonneg_integer (fn c) = true /\ Zvalue (fn c) = Some nfn /\
    ntp + ntn + nfp + nfn = Z.of_nat (List.length predicted).
Proof.
  intros Hlen Hn.
  pose proof (counts_of_equal_length predicted actual positiveValue Hlen Hn) as Hc.
  pose proof (cnt_partition (fun i => isPositive positiveValue (get predicted i))
                            (fun i => isPositive positiveValue (get actual i))
                            (seq 0 (List.length predicted))) as Hp.
  cbv beta in Hp.
  rewrite length_seq in Hp. unfold count_indexes in Hc.
  repeat match type of Hp with
  | context [cnt ?f ?l] =>
      let k := fresh "k" in let Hk := fresh "Hk" in
      pose proof (cnt_nonneg f l) as Hk; set (k := cnt f l) in *; clearbody k
  end.
  exists {| tp := of_Z k; tn := of_Z k0; fp := of_Z k1; fn := of_Z k2 |}.
  exists k, k0, k1, k2. split; [exact Hc|]. cbn [tp tn fp fn].
  repeat split; try (apply of_Z_Zvalue; lia). exact Hp.
Qed.

Lemma C9_counts_sum_witness :
  exists (c : ConfusionCounts) (ntp ntn nfp nfn : Z),
    computeCountsFromLabels [VBoolean true; VBoolean true; VBoolean false]
                            [VBoolean true; VBoolean false; VBoolean false]
                            VUndefined = Ok c /\
    nonneg_integer (tp c) = true /\ Zvalue (tp c) = Some ntp /\
    nonneg_integer (tn c) = true /\ Zvalue (tn c) = Some ntn /\
    nonneg_integer (fp c) = true /\ Zvalue (fp c) = Some nfp /\
    nonneg_integer (fn c) = true /\ Zvalue (fn c) = Some nfn /\
    ntp + ntn + nfp + nfn = 3.
Proof.
  apply (C9_counts_sum [VBoolean true; VBoolean true; VBoolean false]
                       [VBoolean true; VBoolean false; VBoolean false] VUndefined).
  - reflexivity.
  - vm_compute. discriminate.
Defined.


(** ** Sums of counts *)

Lemma rnd_int (n t : Z) :
  0 <= n <= 2 ^ 53 -> cexp_of (IZR n) t -> rnd (IZR n) t = IZR n.
Proof.
  intros [Hn0 Hn1] Ht. destruct (Z.eq_dec n (2 ^ 53)) as [->|NE].
  - assert (E : t = 1).
    { apply (cexp_of_unique _ _ _ Ht). change (cexp_of (IZR (2 ^ 53)) (fexp 54)).
      apply cexp_of_mag. rewrite !bpow_IZR by lia. split; [apply IZR_le|apply IZR_lt]; lia. }
    subst t. apply (rnd_exact _ _ (2 ^ 52)).
    change (Z.opp 1) with (0 - 1). rewrite bpow_pred, bpow_0.
    change (2 ^ 53) with 9007199254740992. change (2 ^ 52) with 4503599627370496. lra.
  - assert (Ht0 : t <= 0).
    { destruct Ht as [[-> _]|[_ [Hlo _]]]; [rewrite emin_eq; lia|].
      assert (Hlt : (IZR n < bpow 53)%R) by (rewrite bpow_IZR by lia; apply IZR_lt; lia).
      assert (Hb : (bpow (t + prec - 1) < bpow 53)%R) by lra.
      apply bpow_lt_inv in Hb. unfold prec in Hb. lia. }
    apply (rnd_exact _ _ (n * 2 ^ (- t))). rewrite IZR_shift by lia. reflexivity.
Qed.

Lemma add_int (x y : number) (a b : Z) :
  finite_nonneg x = true -> finite_nonneg y = true ->
  B2R x = IZR a -> B2R y = IZR b -> a + b <= 2 ^ 53 ->
  finite_nonneg (add x y) = true /\ B2R (add x y) = IZR (a + b).
Proof.
  intros Hx Hy Ha Hb Hab.
  pose proof (finite_nonneg_B2R x Hx) as Hx0. pose proof (finite_nonneg_B2R y Hy) as Hy0.
  rewrite Ha in Hx0. rewrite Hb in Hy0. apply le_IZR in Hx0, Hy0.
  destruct (add_spec x y Hx Hy) as (t & Ht & H).
  rewrite Ha, Hb, <- plus_IZR in *.
  rewrite (rnd_int (a + b) t ltac:(lia) Ht) in H.
  destruct H as [(_ & H1 & H2)|(Hge & _)]; [auto|].
  exfalso. rewrite bpow_IZR in Hge by (unfold emax; lia). apply le_IZR in Hge.
  assert (2 ^ 53 < 2 ^ emax) by (apply Z.pow_lt_mono_r; unfold emax; lia). lia.
Qed.


(** ** Ratios of a part to a whole *)

Lemma nonneg_ext_cases (x : number) :
  nonneg_ext x = true -> finite_nonneg x = true \/ x = POSITIVE_INFINITY.
Proof.
  unfold nonneg_ext. intros H. apply orb_prop in H. destruct H as [H|H]; [now left|].
  right. destruct x as [s|[]| |s m e]; try discriminate. reflexivity.
Qed.

Lemma finite_nonneg_ext (x : number) : finite_nonneg x = true -> nonneg_ext x = true.
Proof. unfold nonneg_ext. intros ->. reflexivity. Qed.

Lemma add_inf_l (y : number) :
  nonneg_ext y = true -> add POSITIVE_INFINITY y = POSITIVE_INFINITY.
Proof.
  intros H. destruct (nonneg_ext_cases y H) as [Hy| ->]; [|reflexivity].
  destruct y as [s|s| |[] m e]; try discriminate; reflexivity.
Qed.

Lemma add_inf_r (x : number) :
  nonneg_ext x = true -> add x POSITIVE_INFINITY = POSITIVE_INFINITY.
Proof.
  intros H. destruct (nonneg_ext_cases x H) as [Hx| ->]; [|reflexivity].
  destruct x as [s|s| |[] m e]; try discriminate; reflexivity.
Qed.

Lemma add_finite_ext (x y : number) :
  finite_nonneg x = true -> finite_nonneg y = true -> nonneg_ext (add x y) = true.
Proof.
  intros Hx Hy. destruct (add_spec x y Hx Hy) as (t & _ & [(_ & H & _)|(_ & ->)]).
  - apply finite_nonneg_ext, H.
  - reflexivity.
Qed.

Lemma add_ext (x y : number) :
  nonneg_ext x = true -> nonneg_ext y = true -> nonneg_ext (add x y) = true.
Proof.
  intros Hx Hy.
  destruct (nonneg_ext_cases x Hx) as [Fx| ->]; [|rewrite add_inf_l by assumption; reflexivity].
  destruct (nonneg_ext_cases y Hy) as [Fy| ->]; [|rewrite add_inf_r by assumption; reflexivity].
  apply add_finite_ext; assumption.
Qed.

(** Addition is monotone on valid non-negative numbers. *)
Lemma add_mono (x y x' y' : number) :
  finite_nonneg x = true -> finite_nonneg y = true ->
  finite_nonneg x' = true -> finite_nonneg y' = true ->
  (B2R x <= B2R x')%R -> (B2R y <= B2R y')%R ->
  finite_nonneg (add x' y') = true ->
  finite_nonneg (add x y) = true /\ (B2R (add x y) <= B2R (add x' y'))%R.
Proof.
  intros Hx Hy Hx' Hy' Lx Ly Hs'.
  destruct (add_spec x y Hx Hy) as (t & Ht & H).
  destruct (add_spec x' y' Hx' Hy') as (t' & Ht' & H').
  pose proof (rnd_le _ _ _ _ Ht Ht' ltac:(lra)) as Hle.
  destruct H' as [(Hlt' & _ & R')|(_ & E')]; [|rewrite E' in Hs'; discriminate].
  destruct H as [(_ & F & R)|(Hge & _)]; [|lra].
  split; [assumption|]. rewrite R, R'. assumption.
Qed.

Lemma of_Z_0_1 :
  finite_nonneg (of_Z 0) = true /\ B2R (of_Z 0) = 0%R /\
  finite_nonneg (of_Z 1) = true /\ B2R (of_Z 1) = 1%R.
Proof.
  destruct (of_Z_spec 0 ltac:(lia)) as [H1 H2].
  destruct (of_Z_spec 1 ltac:(lia)) as [H3 H4]. auto.
Qed.

Lemma in_unit_finite (r : number) :
  finite_nonneg r = true -> (B2R r <= 1)%R -> in_unit_interval r.
Proof.
  intros Hr Hle _. destruct of_Z_0_1 as (F0 & R0 & F1 & R1).
  pose proof (finite_nonneg_B2R r Hr).
  split; apply leb_B2R; try assumption; lra.
Qed.

(** A part divided by a whole that is at least the part (or has overflowed
    to [+Infinity]) is in [[0, 1]] unless it is [NaN]. *)
Lemma divide_part_whole (x w : number) :
  nonneg_ext x = true ->
  w = POSITIVE_INFINITY \/
  (finite_nonneg w = true /\ finite_nonneg x = true /\ (B2R x <= B2R w)%R) ->
  in_unit_interval (divide x w).
Proof.
  intros Hx [->|(Fw & Fx & Hle)].
  - destruct (nonneg_ext_cases x Hx) as [Fx| ->].
    + destruct x as [[]|[]| |[] m e]; try discriminate; intros _; split; reflexivity.
    + intros H. discriminate H.
  - destruct w as [s|s| |[] m e]; simpl finite_nonneg in Fw; try discriminate Fw.
    + rewrite divide_zero by (eexists; reflexivity). intros H. discriminate H.
    + rewrite divide_nonzero by discriminate.
      destruct (div_le_1 x m e Fx Hle) as (F & [_ H1] & _).
      apply in_unit_finite; assumption.
Qed.

Lemma part_of_sum_l (x y : number) :
  finite_nonneg x = true -> finite_nonneg y = true ->
  in_unit_interval (divide x (add x y)).
Proof.
  intros Hx Hy. apply divide_part_whole; [apply finite_nonneg_ext, Hx|].
  destruct (nonneg_ext_cases _ (add_finite_ext x y Hx Hy)) as [F|E]; [right|now left].
  split; [assumption|]. split; [assumption|]. apply add_ge_l; assumption.
Qed.

Lemma part_of_sum_r (x y : number) :
  finite_nonneg x = true -> finite_nonneg y = true ->
  in_unit_interval (divide y (add x y)).
Proof.
  intros Hx Hy. rewrite add_comm by assumption. apply part_of_sum_l; assumption.
Qed.

Lemma sum_of_parts (x y x' y' : number) :
  finite_nonneg x = true -> finite_nonneg y = true ->
  nonneg_ext x' = true -> nonneg_ext y' = true ->
  (finite_nonneg x' = true -> (B2R x <= B2R x')%R) ->
  (finite_nonneg y' = true -> (B2R y <= B2R y')%R) ->
  in_unit_interval (divide (add x y) (add x' y')).
Proof.
  intros Hx Hy Hx' Hy' Lx Ly.
  apply divide_part_whole; [apply add_finite_ext; assumption|].
  destruct (nonneg_ext_cases x' Hx') as [Fx'| ->];
    [|left; apply add_inf_l; assumption].
  destruct (nonneg_ext_cases y' Hy') as [Fy'| ->];
    [|left; apply add_inf_r; assumption].
  destruct (nonneg_ext_cases _ (add_finite_ext x' y' Fx' Fy')) as [F|E]; [right|now left].
  destruct (add_mono x y x' y' Hx Hy Fx' Fy' (Lx Fx') (Ly Fy') F) as [F1 L1].
  auto.
Qed.

(** C8: for counts that are non-negative integers with [tp + fn > 0] and
    [tn + fp > 0], each of [tpr], [tnr], [ppv], [npv] and [accuracy] that is
    not [NaN] lies in [[0, 1]]. *)
Theorem C8_rates_in_unit_interval (c : ConfusionCounts) :
  nonneg_integer (tp c) = true -> nonneg_integer (tn c) = true ->
  nonneg_integer (fp c) = true -> nonneg_integer (fn c) = true ->
  ltb (of_Z 0) (tp c + fn c)%num = true ->
  ltb (of_Z 0) (tn c + fp c)%num = true ->
  let m := computeMetricsFromCounts c in
  in_unit_interval (tpr m) /\ in_unit_interval (tnr m) /\
  in_unit_interval (ppv m) /\ in_unit_interval (npv m) /\
  in_unit_interval (accuracy m).
Proof.
  intros Htp Htn Hfp Hfn _ _ m.
  apply nonneg_integer_finite in Htp, Htn, Hfp, Hfn.
  cbn [m computeMetricsFromCounts tpr tnr ppv npv accuracy].
  split; [apply part_of_sum_l; assumption|].
  split; [apply part_of_sum_l; assumption|].
  split; [apply part_of_sum_l; assumption|].
  split; [apply part_of_sum_l; assumption|].
  apply sum_of_parts; try assumption; try (apply add_finite_ext; assumption);
    intros F; apply add_ge_l; assumption.
Qed.

Lemma C8_rates_in_unit_interval_witness :
  let m := computeMetricsFromCounts
             {| tp := of_Z 70; tn := of_Z 100; fp := of_Z 10; fn := of_Z 20 |} in
  in_unit_interval (tpr m) /\ in_unit_interval (tnr m) /\
  in_unit_interval (ppv m) /\ in_unit_interval (npv m) /\
  in_unit_interval (accuracy m).
Proof.
  apply (C8_rates_in_unit_interval
           {| tp := of_Z 70; tn := of_Z 100; fp := of_Z 10; fn := of_Z 20 |});
    reflexivity.
Defined.


(** ** Two complementary ratios *)

Lemma nearE_tie_even (K : Z) (u : R) :
  (IZR K <= u <= IZR K + 1 / 2)%R -> Z.even K = true -> nearE u = K.
Proof.
  intros Hu Hev. unfold nearE.
  rewrite (Zfloor_eq K u) by lra.
  destruct (Rlt_dec _ _); [reflexivity|].
  destruct (Rlt_dec _ _); [lra|]. rewrite Hev. reflexivity.
Qed.

Lemma Rabs_le_bounds (x a : R) : (Rabs x <= a)%R -> (- a <= x <= a)%R.
Proof. unfold Rabs. destruct (Rcase_abs x); lra. Qed.

Lemma bpow_m1 : bpow (-1) = (1 / 2)%R.
Proof. change (-1) with (0 - 1). rewrite bpow_pred, bpow_0. reflexivity. Qed.

Lemma rnd_unit_error (v : R) (t : Z) :
  (0 <= v <= 1)%R -> cexp_of v t -> (Rabs (rnd v t - v) <= bpow (-54))%R.
Proof.
  intros [Hv0 Hv1] Ht. destruct (Req_dec v 1) as [->|NE].
  - rewrite (cexp_of_unique _ _ _ Ht cexp_of_1), rnd_1.
    replace (1 - 1)%R with 0%R by ring. rewrite Rabs_R0.
    pose proof (bpow_pos (-54)). lra.
  - assert (Ht53 : t <= -53).
    { destruct Ht as [[-> _]|[_ [Hlo _]]]; [rewrite emin_eq; lia|].
      assert (Hb : (bpow (t + prec - 1) < bpow 0)%R) by (rewrite bpow_0; lra).
      apply bpow_lt_inv in Hb. unfold prec in Hb. lia. }
    pose proof (rnd_error v t) as He.
    pose proof (bpow_le t (-53) Ht53) as Hb.
    change (-54) with (-53 - 1). rewrite bpow_pred. lra.
Qed.

Lemma ratio_pair (x y : number) (a b : Z) :
  finite_nonneg x = true -> finite_nonneg y = true ->
  B2R x = IZR a -> B2R y = IZR b -> 0 < a + b <= 2 ^ 53 ->
  add (divide x (add x y)) (divide y (add x y)) = of_Z 1 \/
  add (divide x (add x y)) (divide y (add x y)) = pred_one.
Proof.
  intros Hx Hy Ha Hb [Hpos Hab].
  pose proof (finite_nonneg_B2R x Hx) as Hx0. pose proof (finite_nonneg_B2R y Hy) as Hy0.
  rewrite Ha in Hx0. rewrite Hb in Hy0.
  destruct (add_int x y a b Hx Hy Ha Hb Hab) as [Fp Rp].
  assert (Hp0 : (0 < IZR (a + b))%R) by (apply IZR_lt; assumption).
  assert (Hsum : (IZR a + IZR b = IZR (a + b))%R) by (rewrite plus_IZR; reflexivity).
  destruct (add x y) as [s|s| |[] m e] eqn:Ep; simpl finite_nonneg in Fp;
    try discriminate Fp.
  { simpl in Rp. lra. }
  rewrite !divide_nonzero by discriminate.
  destruct (div_le_1 x m e Hx ltac:(rewrite Ha, Rp; lra)) as (FA & [A0 A1] & (ta & Hta & RA)).
  destruct (div_le_1 y m e Hy ltac:(rewrite Hb, Rp; lra)) as (FB & [B0 B1] & (tb & Htb & RB)).
  rewrite Ha, Rp in *. rewrite Hb in *.
  set (qa := div x (S754_finite false m e)) in *.
  set (qb := div y (S754_finite false m e)) in *.
  set (va := (IZR a / IZR (a + b))%R) in *.
  set (vb := (IZR b / IZR (a + b))%R) in *.
  assert (Hva : (0 <= va <= 1)%R).
  { unfold va. split.
    - apply Rmult_le_pos; [lra | left; apply Rinv_0_lt_compat; lra].
    - apply Rmult_le_reg_r with (IZR (a + b)); [lra|].
      replace (IZR a / IZR (a + b) * IZR (a + b))%R with (IZR a) by (field; lra).
      lra. }
  assert (Hvab : (va + vb = 1)%R) by (unfold va, vb; rewrite <- Hsum; field; lra).
  assert (Hvb : (0 <= vb <= 1)%R).
  { split; [|lra]. unfold vb.
    apply Rmult_le_pos; [lra | left; apply Rinv_0_lt_compat; lra]. }
  pose proof (rnd_unit_error va ta Hva Hta) as EA.
  pose proof (rnd_unit_error vb tb Hvb Htb) as EB.
  rewrite <- RA in EA. rewrite <- RB in EB.
  apply Rabs_le_bounds in EA. apply Rabs_le_bounds in EB.
  assert (H54 : (2 * bpow (-54) = bpow (-53))%R)
    by (change (-54) with (-53 - 1); rewrite bpow_pred; lra).
  assert (H53 : (bpow (-53) <= 1 / 2)%R)
    by (rewrite <- bpow_m1; apply bpow_le; lia).
  pose proof (bpow_pos (-53)) as H53p.
  set (w := (B2R qa + B2R qb)%R).
  assert (Hw : (1 - bpow (-53) <= w <= 1 + bpow (-53))%R) by (unfold w; lra).
  destruct (add_Fl qa qb FA FB ltac:(fold w; lra)) as (t & Ht & ->). fold w in Ht |- *.
  destruct (Rlt_le_dec w 1) as [Hlt|Hge].
  - assert (Hc : cexp_of w (-53)).
    { change (-53) with (fexp 0). apply cexp_of_mag.
      change (0 - 1) with (-1). rewrite bpow_m1, bpow_0. lra. }
    rewrite (cexp_of_unique _ _ _ Ht Hc). unfold Fl. change (- -53) with 53.
    assert (Hu : (IZR (2 ^ 53 - 1) <= w * bpow 53 < IZR (2 ^ 53))%R).
    { rewrite minus_IZR, <- bpow_IZR by lia. pose proof (bpow_pos 53) as Hb53.
      pose proof (bpow_inv_l 53) as Hi. change (Z.opp 53) with (-53) in Hi.
      pose proof (Rmult_le_compat_r (bpow 53) _ _ (Rlt_le _ _ Hb53) (proj1 Hw)) as L1.
      pose proof (Rmult_lt_compat_r (bpow 53) _ _ Hb53 Hlt) as L2.
      split; nra. }
    pose proof (nearE_ge_IZR _ _ (proj1 Hu)) as K1.
    pose proof (nearE_le_IZR _ _ (Rlt_le _ _ (proj2 Hu))) as K2.
    destruct (Z.eq_dec (nearE (w * bpow 53)) (2 ^ 53)) as [E|NE].
    + left. rewrite E, finish_carry by (rewrite emin_eq; lia). reflexivity.
    + right. assert (E : nearE (w * bpow 53) = 2 ^ 53 - 1) by lia.
      rewrite E. change (2 ^ 53 - 1) with (Zpos 9007199254740991).
      rewrite finish_lt by (rewrite ?emin_eq; lia). reflexivity.
  - left.
    assert (Hc : cexp_of w (-52)).
    { change (-52) with (fexp 1). apply cexp_of_mag.
      change (1 - 1) with 0. rewrite bpow_0, bpow_1. lra. }
    rewrite (cexp_of_unique _ _ _ Ht Hc). unfold Fl. change (- -52) with 52.
    assert (Hu : (IZR (2 ^ 52) <= w * bpow 52 <= IZR (2 ^ 52) + 1 / 2)%R).
    { rewrite <- bpow_IZR by lia. pose proof (bpow_pos 52) as Hb52.
      assert (Hi : (bpow (-53) * bpow 52 = 1 / 2)%R).
      { rewrite <- bpow_add. change (-53 + 52) with (-1). apply bpow_m1. }
      pose proof (Rmult_le_compat_r (bpow 52) _ _ (Rlt_le _ _ Hb52) Hge) as L1.
      pose proof (Rmult_le_compat_r (bpow 52) _ _ (Rlt_le _ _ Hb52) (proj2 Hw)) as L2.
      split; nra. }
    rewrite (nearE_tie_even (2 ^ 52) _ Hu eq_refl).
    change (2 ^ 52) with (Zpos 4503599627370496).
    rewrite finish_lt by (rewrite ?emin_eq; lia). reflexivity.
Qed.


(** ** Two complementary ratios over a rounded denominator *)

(** Every valid finite number is a multiple of the smallest one. *)
Lemma finite_nonneg_grid (x : number) :
  finite_nonneg x = true -> exists n, B2R x = (IZR n * bpow emin)%R.
Proof.
  destruct x as [s|s| |[] m e]; simpl finite_nonneg; try discriminate; intros H.
  - exists 0. simpl. lra.
  - destruct (bounded_inv m e H) as (_ & [He _] & _ & _).
    exists (Zpos m * 2 ^ (e - emin)). rewrite B2R_finite_pos, IZR_shift by lia.
    rewrite Rmult_assoc, <- bpow_add. do 2 f_equal. lia.
Qed.

(** The relative error of a sum that did not overflow. *)
Lemma add_rel_error (x y : number) :
  finite_nonneg x = true -> finite_nonneg y = true ->
  finite_nonneg (add x y) = true ->
  (Rabs (B2R (add x y) - (B2R x + B2R y)) <= bpow (-53) * B2R (add x y))%R.
Proof.
  intros Hx Hy Hs.
  destruct (add_spec x y Hx Hy) as (t & Ht & [(_ & _ & R)|(_ & E)]);
    [|rewrite E in Hs; discriminate].
  rewrite R. set (s := (B2R x + B2R y)%R) in *.
  pose proof (bpow_pos (-53)) as Hb.
  pose proof (rnd_nonneg s t (cexp_of_nonneg _ _ Ht)) as Hr0.
  pose proof (cexp_of_nonneg _ _ Ht) as Hs0.
  destruct Ht as [[-> _]|[Ht [Hlo Hhi]]].
  - destruct (finite_nonneg_grid x Hx) as [nx Ex].
    destruct (finite_nonneg_grid y Hy) as [ny Ey].
    rewrite (rnd_exact s emin (nx + ny)).
    + replace (s - s)%R with 0%R by ring. rewrite Rabs_R0. nra.
    + unfold s. rewrite Ex, Ey, plus_IZR.
      replace ((IZR nx * bpow emin + IZR ny * bpow emin) * bpow (- emin))%R
        with ((IZR nx + IZR ny) * (bpow emin * bpow (- emin)))%R by ring.
      rewrite bpow_inv_r. ring.
  - pose proof (rnd_error s t) as He.
    assert (Hc : cexp_of (bpow (t + prec - 1)) t).
    { right. split; [assumption|]. split; [apply Rle_refl|].
      apply bpow_lt. lia. }
    assert (Hc' : cexp_of s t) by (right; auto).
    pose proof (rnd_le _ _ _ _ Hc Hc' Hlo) as Hge.
    rewrite (rnd_exact (bpow (t + prec - 1)) t (2 ^ 52)) in Hge.
    2:{ rewrite <- bpow_add, bpow_IZR by (unfold prec; lia).
        do 2 f_equal. unfold prec. lia. }
    assert (Hhalf : (bpow t / 2 = bpow (-53) * bpow (t + prec - 1))%R).
    { rewrite <- bpow_add. replace (-53 + (t + prec - 1)) with (t - 1) by (unfold prec; lia).
      rewrite bpow_pred. reflexivity. }
    apply Rle_trans with (bpow t / 2)%R; [assumption|].
    rewrite Hhalf. apply Rmult_le_compat_l; lra.
Qed.

Lemma ratio_pair_rounded (x y : number) :
  finite_nonneg x = true -> finite_nonneg y = true ->
  finite_nonneg (add x y) = true -> (0 < B2R (add x y))%R ->
  leb (abs (sub (add (divide x (add x y)) (divide y (add x y))) (of_Z 1))) EPSILON = true.
Proof.
  intros Hx Hy Fp Hp0.
  pose proof (finite_nonneg_B2R x Hx) as Hx0. pose proof (finite_nonneg_B2R y Hy) as Hy0.
  pose proof (add_ge_l x y Hx Hy Fp) as Lx. pose proof (add_ge_r x y Hx Hy Fp) as Ly.
  pose proof (add_rel_error x y Hx Hy Fp) as Hrel. apply Rabs_le_bounds in Hrel.
  destruct (add x y) as [s|s| |[] m e] eqn:Ep; simpl finite_nonneg in Fp;
    try discriminate Fp.
  { simpl in Hp0. lra. }
  rewrite !divide_nonzero by discriminate.
  destruct (div_le_1 x m e Hx Lx) as (FA & [A0 A1] & (ta & Hta & RA)).
  destruct (div_le_1 y m e Hy Ly) as (FB & [B0 B1] & (tb & Htb & RB)).
  set (p := B2R (S754_finite false m e)) in *.
  set (qa := div x (S754_finite false m e)) in *.
  set (qb := div y (S754_finite false m e)) in *.
  set (va := (B2R x / p)%R) in *. set (vb := (B2R y / p)%R) in *.
  assert (Hinv : (0 < / p)%R) by (apply Rinv_0_lt_compat; assumption).
  assert (Hva : (0 <= va <= 1)%R).
  { unfold va. split; [apply Rmult_le_pos; lra|].
    apply Rmult_le_reg_r with p; [assumption|].
    replace (B2R x / p * p)%R with (B2R x) by (field; lra). lra. }
  assert (Hvb : (0 <= vb <= 1)%R).
  { unfold vb. split; [apply Rmult_le_pos; lra|].
    apply Rmult_le_reg_r with p; [assumption|].
    replace (B2R y / p * p)%R with (B2R y) by (field; lra). lra. }
  pose proof (bpow_pos (-53)) as H53p.
  assert (Hvab : (1 - bpow (-53) <= va + vb <= 1 + bpow (-53))%R).
  { replace (va + vb)%R with ((B2R x + B2R y) / p)%R by (unfold va, vb; field; lra).
    split; apply Rmult_le_reg_r with p; try assumption;
      replace ((B2R x + B2R y) / p * p)%R with (B2R x + B2R y)%R by (field; lra); lra. }
  pose proof (rnd_unit_error va ta Hva Hta) as EA.
  pose proof (rnd_unit_error vb tb Hvb Htb) as EB.
  rewrite <- RA in EA. rewrite <- RB in EB.
  apply Rabs_le_bounds in EA. apply Rabs_le_bounds in EB.
  assert (H54 : (2 * bpow (-54) = bpow (-53))%R)
    by (change (-54) with (-53 - 1); rewrite bpow_pred; lra).
  assert (H52 : (2 * bpow (-53) = bpow (-52))%R)
    by (change (-53) with (-52 - 1); rewrite bpow_pred; lra).
  assert (H52h : (bpow (-52) <= 1 / 2)%R)
    by (rewrite <- bpow_m1; apply bpow_le; lia).
  set (w := (B2R qa + B2R qb)%R).
  assert (Hw : (1 - bpow (-52) <= w <= 1 + bpow (-52))%R) by (unfold w; lra).
  destruct (add_Fl qa qb FA FB ltac:(fold w; lra)) as (t & Ht & ->). fold w in Ht |- *.
  destruct (Rlt_le_dec w 1) as [Hlt|Hge].
  - assert (Hc : cexp_of w (-53)).
    { change (-53) with (fexp 0). apply cexp_of_mag.
      change (0 - 1) with (-1). rewrite bpow_m1, bpow_0. lra. }
    rewrite (cexp_of_unique _ _ _ Ht Hc). unfold Fl. change (- -53) with 53.
    assert (Hu : (IZR (2 ^ 53 - 2) <= w * bpow 53 < IZR (2 ^ 53))%R).
    { rewrite minus_IZR, <- bpow_IZR by lia. pose proof (bpow_pos 53) as Hb53.
      assert (Hi : (bpow (-52) * bpow 53 = 2)%R).
      { rewrite <- bpow_add. change (-52 + 53) with 1. apply bpow_1. }
      pose proof (Rmult_le_compat_r (bpow 53) _ _ (Rlt_le _ _ Hb53) (proj1 Hw)) as L1.
      pose proof (Rmult_lt_compat_r (bpow 53) _ _ Hb53 Hlt) as L2.
      split; nra. }
    pose proof (nearE_ge_IZR _ _ (proj1 Hu)) as K1.
    pose proof (nearE_le_IZR _ _ (Rlt_le _ _ (proj2 Hu))) as K2.
    destruct (Z.eq_dec (nearE (w * bpow 53)) (2 ^ 53)) as [E|NE].
    { rewrite E, finish_carry by (rewrite emin_eq; lia). reflexivity. }
    destruct (Z.eq_dec (nearE (w * bpow 53)) (2 ^ 53 - 1)) as [E1|NE1].
    { rewrite E1. change (2 ^ 53 - 1) with (Zpos 9007199254740991).
      rewrite finish_lt by (rewrite ?emin_eq; lia). reflexivity. }
    assert (E2 : nearE (w * bpow 53) = 2 ^ 53 - 2) by lia.
    rewrite E2. change (2 ^ 53 - 2) with (Zpos 9007199254740990).
    rewrite finish_lt by (rewrite ?emin_eq; lia). reflexivity.
  - assert (Hc : cexp_of w (-52)).
    { change (-52) with (fexp 1). apply cexp_of_mag.
      change (1 - 1) with 0. rewrite bpow_0, bpow_1. lra. }
    rewrite (cexp_of_unique _ _ _ Ht Hc). unfold Fl. change (- -52) with 52.
    assert (Hu : (IZR (2 ^ 52) <= w * bpow 52 <= IZR (2 ^ 52 + 1))%R).
    { rewrite plus_IZR, <- bpow_IZR by lia. pose proof (bpow_pos 52) as Hb52.
      pose proof (bpow_inv_l 52) as Hi. change (Z.opp 52) with (-52) in Hi.
      pose proof (Rmult_le_compat_r (bpow 52) _ _ (Rlt_le _ _ Hb52) Hge) as L1.
      pose proof (Rmult_le_compat_r (bpow 52) _ _ (Rlt_le _ _ Hb52) (proj2 Hw)) as L2.
      split; nra. }
    pose proof (nearE_ge_IZR _ _ (proj1 Hu)) as K1.
    pose proof (nearE_le_IZR _ _ (proj2 Hu)) as K2.
    destruct (Z.eq_dec (nearE (w * bpow 52)) (2 ^ 52)) as [E|NE].
    { rewrite E. change (2 ^ 52) with (Zpos 4503599627370496).
      rewrite finish_lt by (rewrite ?emin_eq; lia). reflexivity. }
    assert (E2 : nearE (w * bpow 52) = 2 ^ 52 + 1) by lia.
    rewrite E2. change (2 ^ 52 + 1) with (Zpos 4503599627370497).
    rewrite finish_lt by (rewrite ?emin_eq; lia). reflexivity.
Qed.

Lemma ratio_pair_finite (x y : number) :
  nonneg_integer x = true -> nonneg_integer y = true ->
  isFinite (add x y) = true -> eqb (add x y) (of_Z 0) = false ->
  leb (abs (sub (add (divide x (add x y)) (divide y (add x y))) (of_Z 1))) EPSILON = true.
Proof.
  intros Hx Hy Hfin Hnz. apply nonneg_integer_finite in Hx, Hy.
  assert (Fp : finite_nonneg (add x y) = true).
  { destruct (nonneg_ext_cases _ (add_finite_ext x y Hx Hy)) as [F|E]; [assumption|].
    rewrite E in Hfin. discriminate. }
  apply ratio_pair_rounded; try assumption.
  pose proof (finite_nonneg_B2R _ Fp) as H0.
  destruct (Req_dec (B2R (add x y)) 0) as [E|NE]; [|lra].
  exfalso. assert (Hz : eqb (add x y) (of_Z 0) = true)
    by (apply eqb_B2R; [assumption | reflexivity | rewrite E; reflexivity]).
  congruence.
Qed.


(** C7, as amended: for counts that are non-negative integers,
    [tpr + fnr] is within [Number.EPSILON] of 1 whenever [tp + fn] is
    nonzero and finite (has not overflowed to [+Infinity]), and
    [tnr + fpr] is within [Number.EPSILON] of 1 whenever [tn + fp] is
    nonzero and finite. *)
Theorem C7_complementary_rates (c : ConfusionCounts) :
  nonneg_integer (tp c) = true -> nonneg_integer (tn c) = true ->
  nonneg_integer (fp c) = true -> nonneg_integer (fn c) = true ->
  let m := computeMetricsFromCounts c in
  (isFinite (tp c + fn c)%num = true -> (tp c + fn c === 0)%num = false ->
   leb (abs (tpr m + fnr m - 1)%num) EPSILON = true) /\
  (isFinite (tn c + fp c)%num = true -> (tn c + fp c === 0)%num = false ->
   leb (abs (tnr m + fpr m - 1)%num) EPSILON = true).
Proof.
  intros Htp Htn Hfp Hfn m. split; intros Hfin Hnz.
  - exact (ratio_pair_finite (tp c) (fn c) Htp Hfn Hfin Hnz).
  - exact (ratio_pair_finite (tn c) (fp c) Htn Hfp Hfin Hnz).
Qed.

Lemma C7_complementary_rates_witness :
  let m := computeMetricsFromCounts
             {| tp := of_Z 70; tn := of_Z 100; fp := of_Z 10; fn := of_Z 20 |} in
  leb (abs (tpr m + fnr m - 1)%num) EPSILON = true /\
  leb (abs (tnr m + fpr m - 1)%num) EPSILON = true.
Proof.
  intros m.
  pose proof (C7_complementary_rates
                {| tp := of_Z 70; tn := of_Z 100; fp := of_Z 10; fn := of_Z 20 |}
                eq_refl eq_refl eq_refl eq_refl) as [H1 H2].
  split; [apply H1 | apply H2]; reflexivity.
Defined.

(** C7, as stated, fails: with [tp = fn = 2^1023] the denominator
    [tp + fn] is [+Infinity] (nonzero), [tpr] and [fnr] are both 0, and
    their sum is 0. *)
Lemma C7_counterexample :
  let c := {| tp := two_pow_1023; tn := of_Z 0; fp := of_Z 0; fn := two_pow_1023 |} in
  let m := computeMetricsFromCounts c in
  nonneg_integer (tp c) = true /\ nonneg_integer (tn c) = true /\
  nonneg_integer (fp c) = true /\ nonneg_integer (fn c) = true /\
  (tp c + fn c === 0)%num = false /\
  (tpr m + fnr m)%num = of_Z 0 /\
  leb (abs (tpr m + fnr m - 1)%num) EPSILON = false.
Proof. vm_compute. repeat split. Qed.


(** ** The total of integer counts of any size *)

Lemma nonneg_integer_value (x : number) :
  nonneg_integer x = true -> exists n, Zvalue x = Some n /\ 0 <= n.
Proof.
  unfold nonneg_integer. intros H. apply andb_prop in H. destruct H as [_ H].
  destruct (Zvalue x) as [n|]; [|discriminate].
  exists n. split; [reflexivity | apply Z.leb_le, H].
Qed.

Lemma cexp_of_2p53 : cexp_of (IZR (2 ^ 53)) 1.
Proof.
  change 1 with (fexp 54). apply cexp_of_mag.
  rewrite !bpow_IZR by lia. split; [apply IZR_le | apply IZR_lt]; lia.
Qed.

(** A valid number of value at least 2^53 is an integer. *)
Lemma large_is_integer (x : number) :
  finite_nonneg x = true -> (IZR (2 ^ 53) <= B2R x)%R -> nonneg_integer x = true.
Proof.
  intros Hx Hge.
  destruct x as [s|s| |[] m e]; simpl finite_nonneg in Hx; try discriminate Hx.
  { simpl in Hge. assert (0 < IZR (2 ^ 53))%R by (apply IZR_lt; lia). lra. }
  destruct (bounded_inv m e Hx) as (Hm & _ & _ & _).
  assert (He : 0 < e).
  { destruct (Z_lt_le_dec 0 e) as [|Hle]; [assumption|]. exfalso.
    rewrite B2R_finite_pos in Hge. apply IZR_lt in Hm.
    pose proof (bpow_le e 0 Hle) as Hb. rewrite bpow_0 in Hb.
    pose proof (bpow_pos e). assert (0 < IZR (Zpos m))%R by (apply IZR_lt; lia). nra. }
  apply (B2R_Zvalue _ (Zpos m * 2 ^ e)); [exact Hx|].
  rewrite B2R_finite_pos, IZR_shift by lia. reflexivity.
Qed.

(** A finite sum of two counts is a count. *)
Lemma add_integer (x y : number) :
  nonneg_integer x = true -> nonneg_integer y = true ->
  finite_nonneg (add x y) = true -> nonneg_integer (add x y) = true.
Proof.
  intros Hx Hy Fs.
  destruct (nonneg_integer_value x Hx) as (a & Va & Ha).
  destruct (nonneg_integer_value y Hy) as (b & Vb & Hb).
  apply nonneg_integer_finite in Hx, Hy. apply Zvalue_B2R in Va, Vb.
  destruct (Z_le_gt_dec (a + b) (2 ^ 53)) as [Hle|Hgt].
  - destruct (add_int x y a b Hx Hy Va Vb Hle) as [_ R].
    apply (B2R_Zvalue _ (a + b)); assumption.
  - apply large_is_integer; [assumption|].
    destruct (add_spec x y Hx Hy) as (t & Ht & [(_ & _ & R)|(_ & E)]);
      [|rewrite E in Fs; discriminate].
    rewrite R, Va, Vb, <- plus_IZR in *.
    rewrite <- (rnd_int (2 ^ 53) 1 ltac:(lia) cexp_of_2p53).
    apply rnd_le; [exact cexp_of_2p53 | exact Ht | apply IZR_le; lia].
Qed.

Lemma cexp_of_bpow_1023 : cexp_of (bpow 1023) 971.
Proof.
  change 971 with (fexp 1024). apply cexp_of_mag.
  split; [apply Rle_refl | apply bpow_lt; lia].
Qed.

Lemma rnd_bpow_1023 : rnd (bpow 1023) 971 = bpow 1023.
Proof.
  apply (rnd_exact _ _ (2 ^ 52)). rewrite <- bpow_add, bpow_IZR by lia. reflexivity.
Qed.

Lemma cexp_of_3_bpow_1022 : cexp_of (3 * bpow 1022) 971.
Proof. exact (cexp_of_pos 3 1022). Qed.

Lemma rnd_3_bpow_1022 : rnd (3 * bpow 1022) 971 = (3 * bpow 1022)%R.
Proof.
  apply (rnd_exact _ _ (3 * 2 ^ 51)). rewrite Rmult_assoc, <- bpow_add, IZR_shift by lia.
  reflexivity.
Qed.

(** A sum of two valid numbers whose real sum is at most 2^1023 is finite
    and exceeds the real sum by at most 2^970. *)
Lemma add_below_2p1023 (x y : number) :
  finite_nonneg x = true -> finite_nonneg y = true ->
  (B2R x + B2R y <= bpow 1023)%R ->
  finite_nonneg (add x y) = true /\
  (B2R (add x y) <= B2R x + B2R y + bpow 970)%R.
Proof.
  intros Hx Hy Hle.
  destruct (add_spec x y Hx Hy) as (t & Ht & H).
  pose proof (rnd_le _ _ _ _ Ht cexp_of_bpow_1023 Hle) as Hr.
  rewrite rnd_bpow_1023 in Hr.
  assert (Hlt : (bpow 1023 < bpow emax)%R) by (apply bpow_lt; reflexivity).
  destruct H as [(_ & F & R)|(Hge & _)]; [|lra].
  split; [assumption|].
  pose proof (add_rel_error x y Hx Hy F) as He. apply Rabs_le_bounds in He.
  rewrite R in *.
  assert (Hb : (bpow (-53) * bpow 1023 = bpow 970)%R)
    by (rewrite <- bpow_add; reflexivity).
  pose proof (bpow_pos (-53)) as Hp.
  assert (bpow (-53) * rnd (B2R x + B2R y) t <= bpow (-53) * bpow 1023)%R
    by (apply Rmult_le_compat_l; lra).
  lra.
Qed.

Lemma total_finite (x y z w : number) :
  finite_nonneg x = true -> finite_nonneg y = true ->
  finite_nonneg z = true -> finite_nonneg w = true ->
  (B2R x + B2R y + (B2R z + B2R w) <= bpow 1023)%R ->
  finite_nonneg (add (add x y) (add z w)) = true.
Proof.
  intros Hx Hy Hz Hw Hle.
  pose proof (finite_nonneg_B2R x Hx). pose proof (finite_nonneg_B2R y Hy).
  pose proof (finite_nonneg_B2R z Hz). pose proof (finite_nonneg_B2R w Hw).
  destruct (add_below_2p1023 x y Hx Hy ltac:(lra)) as [F1 L1].
  destruct (add_below_2p1023 z w Hz Hw ltac:(lra)) as [F2 L2].
  destruct (add_spec _ _ F1 F2) as (t & Ht & H').
  assert (H970 : (2 * bpow 970 <= bpow 1022)%R).
  { rewrite <- bpow_succ. apply bpow_le. lia. }
  assert (H1023 : bpow 1023 = (2 * bpow 1022)%R)
    by (change 1023 with (1022 + 1); apply bpow_succ).
  pose proof (rnd_le _ _ _ _ Ht cexp_of_3_bpow_1022 ltac:(lra)) as Hr.
  rewrite rnd_3_bpow_1022 in Hr.
  assert (Hmax : (3 * bpow 1022 < bpow emax)%R).
  { change emax with (1022 + 1 + 1). rewrite !bpow_succ. pose proof (bpow_pos 1022). lra. }
  destruct H' as [(_ & F & _)|(Hge & _)]; [assumption|lra].
Qed.

(** C6, as amended: when the four counts are non-negative integers,
    [total] is never [NaN] and never negative: it is a finite non-negative
    integer or, when an addition overflows, [+Infinity]; it is finite
    whenever [tp + tn + fp + fn] is at most 2^1023, and it equals
    [tp + tn + fp + fn] whenever that sum is at most 2^53. *)
Theorem C6_total_exact (c : ConfusionCounts) (ntp ntn nfp nfn : Z) :
  nonneg_integer (tp c) = true -> Zvalue (tp c) = Some ntp ->
  nonneg_integer (tn c) = true -> Zvalue (tn c) = Some ntn ->
  nonneg_integer (fp c) = true -> Zvalue (fp c) = Some nfp ->
  nonneg_integer (fn c) = true -> Zvalue (fn c) = Some nfn ->
  let m := computeMetricsFromCounts c in
  isNaN (total m) = false /\
  leb (of_Z 0) (total m) = true /\
  (nonneg_integer (total m) = true \/ total m = POSITIVE_INFINITY) /\
  (ntp + ntn + nfp + nfn <= 2 ^ 1023 ->
   isFinite (total m) = true /\ nonneg_integer (total m) = true) /\
  (ntp + ntn + nfp + nfn <= 2 ^ 53 ->
   Zvalue (total m) = Some (ntp + ntn + nfp + nfn)).
Proof.
  intros Htp Vtp Htn Vtn Hfp Vfp Hfn Vfn m.
  change (total m) with (add (add (tp c) (fn c)) (add (tn c) (fp c))).
  assert (Ftp := nonneg_integer_finite _ Htp). assert (Ftn := nonneg_integer_finite _ Htn).
  assert (Ffp := nonneg_integer_finite _ Hfp). assert (Ffn := nonneg_integer_finite _ Hfn).
  apply Zvalue_B2R in Vtp, Vtn, Vfp, Vfn.
  pose proof (finite_nonneg_B2R _ Ftp) as P1. pose proof (finite_nonneg_B2R _ Ftn) as P2.
  pose proof (finite_nonneg_B2R _ Ffp) as P3. pose proof (finite_nonneg_B2R _ Ffn) as P4.
  rewrite Vtp in P1. rewrite Vtn in P2. rewrite Vfp in P3. rewrite Vfn in P4.
  apply le_IZR in P1, P2, P3, P4.
  (* the total is a count or +Infinity *)
  assert (Hcases : nonneg_integer (add (add (tp c) (fn c)) (add (tn c) (fp c))) = true \/
                   add (add (tp c) (fn c)) (add (tn c) (fp c)) = POSITIVE_INFINITY).
  { destruct (nonneg_ext_cases _ (add_finite_ext _ _ Ftp Ffn)) as [F1|E1];
      [|right; rewrite E1; apply add_inf_l, add_finite_ext; assumption].
    destruct (nonneg_ext_cases _ (add_finite_ext _ _ Ftn Ffp)) as [F2|E2];
      [|right; rewrite E2; apply add_inf_r, finite_nonneg_ext; assumption].
    destruct (nonneg_ext_cases _ (add_finite_ext _ _ F1 F2)) as [F|E]; [left|now right].
    apply add_integer; try assumption; apply add_integer; assumption. }
  assert (Hfinite : forall x, nonneg_integer x = true ->
                      isNaN x = false /\ leb (of_Z 0) x = true /\ isFinite x = true).
  { intros x Hx. apply nonneg_integer_finite in Hx.
    assert (L : leb (of_Z 0) x = true)
      by (apply leb_B2R; [reflexivity | assumption | apply finite_nonneg_B2R, Hx]).
    destruct x as [s|s| |[] mx ex]; try discriminate Hx; auto. }
  split; [destruct Hcases as [H| ->]; [apply Hfinite, H | reflexivity]|].
  split; [destruct Hcases as [H| ->]; [apply Hfinite, H | reflexivity]|].
  split; [exact Hcases|]. split.
  - intros Hsum.
    assert (F : finite_nonneg (add (add (tp c) (fn c)) (add (tn c) (fp c))) = true).
    { apply total_finite; try assumption.
      rewrite Vtp, Vtn, Vfp, Vfn, <- !plus_IZR, bpow_IZR by lia.
      apply IZR_le. lia. }
    destruct Hcases as [H|E]; [|rewrite E in F; discriminate].
    split; [apply Hfinite, H | exact H].
  - intros Hsum.
    destruct (add_int (tp c) (fn c) ntp nfn Ftp Ffn Vtp Vfn ltac:(lia)) as [Fp Rp].
    destruct (add_int (tn c) (fp c) ntn nfp Ftn Ffp Vtn Vfp ltac:(lia)) as [Fn Rn].
    destruct (add_int _ _ _ _ Fp Fn Rp Rn ltac:(lia)) as [Ft Rt].
    replace (ntp + ntn + nfp + nfn) with (ntp + nfn + (ntn + nfp)) by lia.
    apply (B2R_Zvalue _ _ Ft Rt).
Qed.

Lemma C6_total_exact_witness :
  let m := computeMetricsFromCounts
             {| tp := of_Z 70; tn := of_Z 100; fp := of_Z 10; fn := of_Z 20 |} in
  isNaN (total m) = false /\
  leb (of_Z 0) (total m) = true /\
  (nonneg_integer (total m) = true \/ total m = POSITIVE_INFINITY) /\
  (70 + 100 + 10 + 20 <= 2 ^ 1023 ->
   isFinite (total m) = true /\ nonneg_integer (total m) = true) /\
  (70 + 100 + 10 + 20 <= 2 ^ 53 ->
   Zvalue (total m) = Some (70 + 100 + 10 + 20)).
Proof.
  apply (C6_total_exact
           {| tp := of_Z 70; tn := of_Z 100; fp := of_Z 10; fn := of_Z 20 |}
           70 100 10 20); reflexivity.
Defined.

(** C6, as stated, fails: 2^1023 is a non-negative integer, and with
    [tp = fn = 2^1023] the total overflows to [+Infinity]; and with
    [tp = 2^53], [fn = 1] the total is 2^53, not 2^53 + 1. *)
Lemma C6_counterexample :
  let c := {| tp := two_pow_1023; tn := of_Z 0; fp := of_Z 0; fn := two_pow_1023 |} in
  let d := {| tp := of_Z (2 ^ 53); tn := of_Z 0; fp := of_Z 0; fn := of_Z 1 |} in
  (nonneg_integer (tp c) = true /\ nonneg_integer (tn c) = true /\
   nonneg_integer (fp c) = true /\ nonneg_integer (fn c) = true /\
   total (computeMetricsFromCounts c) = POSITIVE_INFINITY /\
   isFinite (total (computeMetricsFromCounts c)) = false /\
   Zvalue (total (computeMetricsFromCounts c)) = None) /\
  (nonneg_integer (tp d) = true /\ nonneg_integer (tn d) = true /\
   nonneg_integer (fp d) = true /\ nonneg_integer (fn d) = true /\
   Zvalue (tp d) = Some (2 ^ 53) /\ Zvalue (tn d) = Some 0 /\
   Zvalue (fp d) = Some 0 /\ Zvalue (fn d) = Some 1 /\
   Zvalue (total (computeMetricsFromCounts d)) = Some (2 ^ 53)).
Proof. vm_compute. repeat split. Qed.


(** * Further properties of the code *)

(** ** When [divide] is [NaN] *)

Lemma div_finite_not_nan (sx : bool) (mx : positive) (ex : Z)
    (sy : bool) (my : positive) (ey : Z) :
  div (S754_finite sx mx ex) (S754_finite sy my ey) <> NaN.
Proof.
  unfold div, SFdiv.
  pose proof (div_core_located mx ex my ey) as H.
  destruct (SFdiv_core_binary prec emax (Zpos mx) ex (Zpos my) ey) as [[q e'] l].
  destruct H as (u & Hq & _). apply binary_round_aux_not_nan, Hq.
Qed.

(** X1: [divide n d] is [NaN] exactly when [d] is a zero (of either sign),
    [n] or [d] is [NaN], or both are infinite; in every other case, in
    particular for finite operands with a nonzero denominator, it is a
    number. *)
Theorem divide_nan_iff (n d : number) :
  isNaN (divide n d) =
  isZero d || isNaN d || isNaN n || (isInfinity n && isInfinity d).
Proof.
  destruct d as [[]|[]| |sd md ed]; try (destruct n as [[]|[]| |[] mn en]; reflexivity).
  unfold divide.
  replace (eqb (S754_finite sd md ed) (of_Z 0)) with false by (destruct sd; reflexivity).
  destruct n as [[]|[]| |sn mn en]; try (destruct sd; reflexivity).
  pose proof (div_finite_not_nan sn mn en sd md ed) as H.
  destruct (div (S754_finite sn mn en) (S754_finite sd md ed)); try reflexivity.
  exfalso. apply H. reflexivity.
Qed.

(** ** Labels *)

Lemma cnt_ext (f g : nat -> bool) (l : list nat) :
  (forall i, In i l -> f i = g i) -> cnt f l = cnt g l.
Proof.
  intros H. unfold cnt. f_equal. f_equal. apply filter_ext_in, H.
Qed.

Lemma cnt_false (l : list nat) : cnt (fun _ => false) l = 0.
Proof. induction l as [|i l IH]; [reflexivity|]. rewrite cnt_cons, IH. reflexivity. Qed.

Lemma cnt_true (l : list nat) : cnt (fun _ => true) l = Z.of_nat (List.length l).
Proof.
  induction l as [|i l IH]; [reflexivity|]. rewrite cnt_cons, IH. cbn [List.length]. lia.
Qed.

Lemma isPositive_NaN (v : value) : isPositive (VNumber NaN) v = false.
Proof. destruct v as [| | | [] | | | |]; reflexivity. Qed.

(** X2: with [NaN] as [positiveValue] no label is positive ([x === NaN] is
    false for every [x], [NaN] included): every index is a true negative. *)
Theorem counts_with_NaN_positiveValue (predicted actual : list value) :
  List.length predicted = List.length actual ->
  Z.of_nat (List.length predicted) <= 2 ^ 53 ->
  computeCountsFromLabels predicted actual (VNumber NaN) =
  Ok {| tp := of_Z 0; tn := of_Z (Z.of_nat (List.length predicted));
        fp := of_Z 0; fn := of_Z 0 |}.
Proof.
  intros Hlen Hn. rewrite counts_of_equal_length by assumption.
  unfold count_indexes. f_equal. f_equal; f_equal.
  - rewrite <- (cnt_false (seq 0 (List.length predicted))).
    apply cnt_ext. intros i _. rewrite !isPositive_NaN. reflexivity.
  - transitivity (cnt (fun _ => true) (seq 0 (List.length predicted)));
      [|rewrite cnt_true, length_seq; reflexivity].
    apply cnt_ext. intros i _. rewrite !isPositive_NaN. reflexivity.
  - rewrite <- (cnt_false (seq 0 (List.length predicted))).
    apply cnt_ext. intros i _. rewrite !isPositive_NaN. reflexivity.
  - rewrite <- (cnt_false (seq 0 (List.length predicted))).
    apply cnt_ext. intros i _. rewrite !isPositive_NaN. reflexivity.
Qed.

Lemma counts_with_NaN_positiveValue_witness :
  computeCountsFromLabels [VNumber NaN; VNumber (of_Z 1)] [VNumber NaN; VBoolean true]
                          (VNumber NaN) =
  Ok {| tp := of_Z 0; tn := of_Z 2; fp := of_Z 0; fn := of_Z 0 |}.
Proof.
  apply (counts_with_NaN_positiveValue [VNumber NaN; VNumber (of_Z 1)]
                                       [VNumber NaN; VBoolean true]).
  - reflexivity.
  - vm_compute. discriminate.
Defined.

(** X3: [computeMetricsFromLabels] on arrays of equal length succeeds and
    its [total] is the number of labels. *)
Theorem metrics_from_labels_total (predicted actual : list value) (positiveValue : value) :
  List.length predicted = List.length actual ->
  Z.of_nat (List.length predicted) <= 2 ^ 53 ->
  exists m, computeMetricsFromLabels predicted actual positiveValue = Ok m /\
            total m = of_Z (Z.of_nat (List.length predicted)).
Proof.
  intros Hlen Hn. unfold computeMetricsFromLabels.
  rewrite counts_of_equal_length by assumption. cbn [bind].
  eexists. split; [reflexivity|].
  cbn [computeMetricsFromCounts total tp tn fp fn].
  pose proof (cnt_partition (fun i => isPositive positiveValue (get predicted i))
                            (fun i => isPositive positiveValue (get actual i))
                            (seq 0 (List.length predicted))) as Hp.
  cbv beta in Hp. rewrite length_seq in Hp. unfold count_indexes.
  repeat match type of Hp with
  | context [cnt ?f ?l] =>
      let k := fresh "k" in let Hk := fresh "Hk" in
      pose proof (cnt_nonneg f l) as Hk; set (k := cnt f l) in *; clearbody k
  end.
  rewrite !of_Z_add by lia. f_equal. lia.
Qed.

Lemma metrics_from_labels_total_witness :
  exists m, computeMetricsFromLabels [VString "pos"; VString "neg"; VString "pos"]
                                     [VString "pos"; VString "pos"; VString "neg"]
                                     (VString "pos") = Ok m /\
            total m = of_Z 3.
Proof.
  apply (metrics_from_labels_total [VString "pos"; VString "neg"; VString "pos"]
                                   [VString "pos"; VString "pos"; VString "neg"]
                                   (VString "pos")).
  - reflexivity.
  - vm_compute. discriminate.
Defined.

(** ** Perfect predictions *)

Lemma of_Z_finite_pos (n : Z) :
  0 < n <= 2 ^ 53 ->
  exists m e, of_Z n = S754_finite false m e /\
              SpecFloat.bounded prec emax m e = true.
Proof.
  intros Hn. destruct (of_Z_spec n ltac:(lia)) as [Hf Hr].
  destruct (of_Z n) as [s|s| |[] m e]; simpl finite_nonneg in Hf; try discriminate.
  - exfalso. simpl in Hr. assert (0 < IZR n)%R by (apply IZR_lt; lia). lra.
  - exists m, e. auto.
Qed.

(** A valid positive number divided by itself is exactly 1. *)
Lemma div_self (m : positive) (e : Z) :
  div (S754_finite false m e) (S754_finite false m e) = of_Z 1.
Proof.
  destruct (div_finite_Fl m e m e) as (t & Ht & ->).
  pose proof (finite_pos_B2R m e) as Hp.
  replace (B2R (S754_finite false m e) / B2R (S754_finite false m e))%R
    with 1%R in * by (field; lra).
  rewrite (cexp_of_unique _ _ _ Ht cexp_of_1). unfold Fl.
  rewrite Rmult_1_l. change (- -52) with 52.
  rewrite bpow_IZR, nearE_IZR by lia. reflexivity.
Qed.

(** X4: when the predictions are the actual labels (a non-empty array
    compared with itself), there is no false positive and no false
    negative, and the accuracy is exactly 1. *)
Theorem perfect_prediction (labels : list value) (positiveValue : value) :
  labels <> [] ->
  Z.of_nat (List.length labels) <= 2 ^ 53 ->
  exists m, computeMetricsFromLabels labels labels positiveValue = Ok m /\
            fp m = of_Z 0 /\ fn m = of_Z 0 /\ accuracy m = of_Z 1.
Proof.
  intros Hne Hn. unfold computeMetricsFromLabels.
  rewrite counts_of_equal_length by (reflexivity || assumption). cbn [bind].
  eexists. split; [reflexivity|].
  cbn [computeMetricsFromCounts counts accuracy tp tn fp fn].
  pose proof (cnt_partition (fun i => isPositive positiveValue (get labels i))
                            (fun i => isPositive positiveValue (get labels i))
                            (seq 0 (List.length labels))) as Hp.
  cbv beta in Hp. rewrite length_seq in Hp. unfold count_indexes.
  rewrite (cnt_ext (fun i => _ && negb _) (fun _ => false)) in *
    by (intros i _; apply andb_negb_r).
  rewrite (cnt_ext (fun i => negb _ && _) (fun _ => false)) in *
    by (intros i _; apply andb_negb_l).
  rewrite cnt_false in *.
  split; [reflexivity|]. split; [reflexivity|].
  repeat match type of Hp with
  | context [cnt ?f ?l] =>
      let k := fresh "k" in let Hk := fresh "Hk" in
      pose proof (cnt_nonneg f l) as Hk; set (k := cnt f l) in *; clearbody k
  end.
  assert (Hlen : 0 < Z.of_nat (List.length labels)).
  { destruct labels; [contradiction|]. cbn [List.length]. lia. }
  rewrite !of_Z_add by lia.
  replace (k + 0 + (k0 + 0)) with (k + k0) by lia.
  destruct (of_Z_finite_pos (k + k0) ltac:(lia)) as (m & e & -> & Hb).
  rewrite divide_nonzero by discriminate. apply div_self.
Qed.

Lemma perfect_prediction_witness :
  exists m, computeMetricsFromLabels [VBoolean true; VBoolean false; VBoolean true]
                                     [VBoolean true; VBoolean false; VBoolean true]
                                     VUndefined = Ok m /\
            fp m = of_Z 0 /\ fn m = of_Z 0 /\ accuracy m = of_Z 1.
Proof.
  apply (perfect_prediction [VBoolean true; VBoolean false; VBoolean true] VUndefined).
  - discriminate.
  - vm_compute. discriminate.
Defined.


(** ** Counting over a concatenation *)

Lemma cnt_app (f : nat -> bool) (l1 l2 : list nat) :
  cnt f (l1 ++ l2) = cnt f l1 + cnt f l2.
Proof. unfold cnt. rewrite filter_app, length_app. lia. Qed.

Lemma cnt_seq_shift (f : nat -> bool) (k s n : nat) :
  cnt (fun i => f (k + i)%nat) (seq s n) = cnt f (seq (k + s) n).
Proof.
  revert s. induction n as [|n IH]; intros s; [reflexivity|].
  cbn [seq]. rewrite !cnt_cons, IH, Nat.add_succ_r. reflexivity.
Qed.

Lemma count_indexes_app (f : nat -> bool) (n1 n2 : nat) :
  count_indexes (n1 + n2) f =
  count_indexes n1 f + count_indexes n2 (fun i => f (n1 + i)%nat).
Proof.
  unfold count_indexes. rewrite seq_app, cnt_app, cnt_seq_shift.
  rewrite Nat.add_0_r. reflexivity.
Qed.

Lemma get_app_l (l1 l2 : list value) (i : nat) :
  (i < List.length l1)%nat -> get (l1 ++ l2) i = get l1 i.
Proof. intros H. unfold get. apply app_nth1, H. Qed.

Lemma get_app_r (l1 l2 : list value) (i : nat) :
  get (l1 ++ l2) (List.length l1 + i) = get l2 i.
Proof. unfold get. apply app_nth2_plus. Qed.

Lemma count_indexes_ext (f g : nat -> bool) (n : nat) :
  (forall i, (i < n)%nat -> f i = g i) -> count_indexes n f = count_indexes n g.
Proof. intros H. apply cnt_ext. intros i Hi. apply in_seq in Hi. apply H. lia. Qed.

Lemma count_indexes_bounds (f : nat -> bool) (n : nat) :
  0 <= count_indexes n f <= Z.of_nat n.
Proof.
  unfold count_indexes. pose proof (cnt_nonneg f (seq 0 n)).
  pose proof (cnt_le_length f (seq 0 n)) as L. rewrite length_seq in L. lia.
Qed.

Lemma of_Z_count_app (f g1 g2 : nat -> bool) (n1 n2 : nat) :
  (forall i, (i < n1)%nat -> f i = g1 i) ->
  (forall i, (i < n2)%nat -> f (n1 + i)%nat = g2 i) ->
  Z.of_nat (n1 + n2) <= 2 ^ 53 ->
  of_Z (count_indexes (n1 + n2) f) =
  add (of_Z (count_indexes n1 g1)) (of_Z (count_indexes n2 g2)).
Proof.
  intros E1 E2 Hn.
  pose proof (count_indexes_bounds g1 n1). pose proof (count_indexes_bounds g2 n2).
  rewrite of_Z_add by lia. f_equal.
  rewrite count_indexes_app. f_equal; apply count_indexes_ext; assumption.
Qed.

(** X5: counting is additive: the counts of two concatenated batches of
    labels are the componentwise sums of the counts of the batches. *)
Theorem counts_of_concatenation (p1 a1 p2 a2 : list value) (positiveValue : value) :
  List.length p1 = List.length a1 ->
  List.length p2 = List.length a2 ->
  Z.of_nat (List.length (p1 ++ p2)) <= 2 ^ 53 ->
  exists c1 c2,
    computeCountsFromLabels p1 a1 positiveValue = Ok c1 /\
    computeCountsFromLabels p2 a2 positiveValue = Ok c2 /\
    computeCountsFromLabels (p1 ++ p2) (a1 ++ a2) positiveValue =
    Ok (add_counts c1 c2).
Proof.
  intros H1 H2 Hn. rewrite length_app in Hn.
  rewrite (counts_of_equal_length p1 a1 positiveValue H1) by lia.
  rewrite (counts_of_equal_length p2 a2 positiveValue H2) by lia.
  rewrite (counts_of_equal_length (p1 ++ p2) (a1 ++ a2) positiveValue)
    by (rewrite !length_app; lia).
  eexists. eexists. split; [reflexivity|]. split; [reflexivity|].
  unfold add_counts. cbn [tp tn fp fn]. rewrite length_app.
  f_equal. f_equal; apply of_Z_count_app; try lia; intros i Hi;
    rewrite ?get_app_l by lia; try reflexivity;
    rewrite H1 at 2; rewrite !get_app_r; reflexivity.
Qed.

Lemma counts_of_concatenation_witness :
  exists c1 c2,
    computeCountsFromLabels [VBoolean true] [VBoolean false] VUndefined = Ok c1 /\
    computeCountsFromLabels [VBoolean true; VBoolean false]
                            [VBoolean true; VBoolean false] VUndefined = Ok c2 /\
    computeCountsFromLabels ([VBoolean true] ++ [VBoolean true; VBoolean false])
                            ([VBoolean false] ++ [VBoolean true; VBoolean false])
                            VUndefined = Ok (add_counts c1 c2).
Proof.
  apply (counts_of_concatenation [VBoolean true] [VBoolean false]
           [VBoolean true; VBoolean false] [VBoolean true; VBoolean false] VUndefined).
  - reflexivity.
  - reflexivity.
  - vm_compute. discriminate.
Defined.


(** ** The other rates *)

(** The strong form of [divide_part_whole]: the ratio is [NaN] or a valid
    number of value at most 1. *)
Lemma divide_part_whole_value (x w : number) :
  nonneg_ext x = true ->
  w = POSITIVE_INFINITY \/
  (finite_nonneg w = true /\ finite_nonneg x = true /\ (B2R x <= B2R w)%R) ->
  divide x w = NaN \/
  (finite_nonneg (divide x w) = true /\ (B2R (divide x w) <= 1)%R).
Proof.
  intros Hx [->|(Fw & Fx & Hle)].
  - destruct (nonneg_ext_cases x Hx) as [Fx| ->]; [|now left].
    right. destruct x as [[]|[]| |[] m e]; try discriminate; split;
      try reflexivity; simpl; lra.
  - destruct w as [s|s| |[] m e]; simpl finite_nonneg in Fw; try discriminate Fw.
    + left. apply divide_zero. eexists. reflexivity.
    + right. rewrite divide_nonzero by discriminate.
      destruct (div_le_1 x m e Fx Hle) as (F & [_ H1] & _). auto.
Qed.

Lemma part_of_sum_ext (x y : number) :
  nonneg_ext x = true -> nonneg_ext y = true ->
  in_unit_interval (divide x (add x y)).
Proof.
  intros Hx Hy. apply divide_part_whole; [assumption|].
  destruct (nonneg_ext_cases x Hx) as [Fx| ->];
    [|left; apply add_inf_l; assumption].
  destruct (nonneg_ext_cases y Hy) as [Fy| ->];
    [|left; apply add_inf_r; assumption].
  destruct (nonneg_ext_cases _ (add_finite_ext x y Fx Fy)) as [F|E]; [right|now left].
  split; [assumption|]. split; [assumption|]. apply add_ge_l; assumption.
Qed.

Lemma part_of_sum_value (x y : number) :
  finite_nonneg x = true -> finite_nonneg y = true ->
  divide x (add x y) = NaN \/
  (finite_nonneg (divide x (add x y)) = true /\ (B2R (divide x (add x y)) <= 1)%R).
Proof.
  intros Hx Hy. apply divide_part_whole_value; [apply finite_nonneg_ext, Hx|].
  destruct (nonneg_ext_cases _ (add_finite_ext x y Hx Hy)) as [F|E]; [right|now left].
  split; [assumption|]. split; [assumption|]. apply add_ge_l; assumption.
Qed.

Lemma part_of_three (x y z : number) :
  finite_nonneg x = true -> finite_nonneg y = true -> finite_nonneg z = true ->
  in_unit_interval (divide x (add (add x y) z)).
Proof.
  intros Hx Hy Hz. apply divide_part_whole; [apply finite_nonneg_ext, Hx|].
  destruct (nonneg_ext_cases _ (add_finite_ext x y Hx Hy)) as [Fxy| ->];
    [|left; apply add_inf_l, finite_nonneg_ext, Hz].
  destruct (nonneg_ext_cases _ (add_finite_ext _ z Fxy Hz)) as [F|E]; [right|now left].
  split; [assumption|]. split; [assumption|].
  apply Rle_trans with (B2R (add x y)); apply add_ge_l; assumption.
Qed.

Lemma cexp_of_2 : cexp_of 2 (-51).
Proof.
  change (-51) with (fexp 2). apply cexp_of_mag.
  rewrite (bpow_IZR (2 - 1)), (bpow_IZR 2) by lia.
  change (2 ^ (2 - 1)) with 2. change (2 ^ 2) with 4. lra.
Qed.

Lemma rnd_2 : rnd 2 (-51) = 2%R.
Proof.
  apply (rnd_exact _ _ (2 ^ 52)). change (- -51) with 51.
  rewrite (bpow_IZR 51) by lia.
  change (2 ^ 51) with 2251799813685248. change (2 ^ 52) with 4503599627370496. lra.
Qed.

Lemma half_sum_in_unit (a b : number) :
  a = NaN \/ (finite_nonneg a = true /\ (B2R a <= 1)%R) ->
  b = NaN \/ (finite_nonneg b = true /\ (B2R b <= 1)%R) ->
  in_unit_interval (div (add a b) (of_Z 2)).
Proof.
  intros [->|[Fa La]] Hb; [intros H; discriminate H|].
  destruct Hb as [->|[Fb Lb]].
  { destruct a as [s|s| |s m e]; intros H; discriminate H. }
  destruct (add_spec a b Fa Fb) as (t & Ht & H).
  pose proof (rnd_le _ _ _ _ Ht cexp_of_2 ltac:(lra)) as Hr. rewrite rnd_2 in Hr.
  destruct H as [(_ & Fs & Rs)|(Hge & _)];
    [|pose proof bpow_emax_gt_1; pose proof (bpow_le 1 emax ltac:(unfold emax; lia)) as B;
      rewrite bpow_1 in B; exfalso;
      assert (bpow 1 < bpow emax)%R by (apply bpow_lt; unfold emax; lia);
      rewrite bpow_1 in *; lra].
  change (of_Z 2) with (S754_finite false 4503599627370496 (-51)).
  destruct (div_le_1 (add a b) 4503599627370496 (-51) Fs) as (F & [_ H1] & _).
  { rewrite Rs, B2R_finite_pos.
    change (-51) with (0 - 51). unfold Z.sub. rewrite bpow_add, bpow_0.
    change (IZR (Zpos 4503599627370496)) with (IZR (2 ^ 52)).
    rewrite <- bpow_IZR by lia.
    replace (bpow 52 * (1 * bpow (- (51))))%R with 2%R; [assumption|].
    change 52 with (51 + 1). rewrite bpow_succ.
    pose proof (bpow_inv_r 51). lra. }
  apply in_unit_finite; assumption.
Qed.

(** X6: for counts that are non-negative integers of any size, [fnr],
    [fpr], [prevalence], [ts] and [balancedAccuracy] are [NaN] or lie in
    [[0, 1]], like the five rates of C8. *)
Theorem other_rates_in_unit_interval (c : ConfusionCounts) :
  nonneg_integer (tp c) = true -> nonneg_integer (tn c) = true ->
  nonneg_integer (fp c) = true -> nonneg_integer (fn c) = true ->
  let m := computeMetricsFromCounts c in
  in_unit_interval (fnr m) /\ in_unit_interval (fpr m) /\
  in_unit_interval (prevalence m) /\ in_unit_interval (ts m) /\
  in_unit_interval (balancedAccuracy m).
Proof.
  intros Htp Htn Hfp Hfn m.
  apply nonneg_integer_finite in Htp, Htn, Hfp, Hfn.
  cbn [m computeMetricsFromCounts fnr fpr prevalence ts balancedAccuracy].
  split; [apply part_of_sum_r; assumption|].
  split; [apply part_of_sum_r; assumption|].
  split; [apply part_of_sum_ext; apply add_finite_ext; assumption|].
  split; [apply part_of_three; assumption|].
  apply half_sum_in_unit; apply part_of_sum_value; assumption.
Qed.

Lemma other_rates_in_unit_interval_witness :
  let m := computeMetricsFromCounts
             {| tp := of_Z 70; tn := of_Z 100; fp := of_Z 10; fn := of_Z 20 |} in
  in_unit_interval (fnr m) /\ in_unit_interval (fpr m) /\
  in_unit_interval (prevalence m) /\ in_unit_interval (ts m) /\
  in_unit_interval (balancedAccuracy m).
Proof.
  apply (other_rates_in_unit_interval
           {| tp := of_Z 70; tn := of_Z 100; fp := of_Z 10; fn := of_Z 20 |});
    reflexivity.
Defined.

(** ** Exchanging the two classes *)

Lemma add_comm_all (x y : number) : add x y = add y x.
Proof.
  destruct x as [[]|[]| |sx mx ex], y as [[]|[]| |sy my ey]; try reflexivity.
  unfold add, SFadd. rewrite (Z.min_comm ey ex). f_equal. apply Z.add_comm.
Qed.

(** X7: exchanging the positive and the negative class (tp with tn, fp
    with fn) exchanges [tpr] with [tnr], [fpr] with [fnr], [ppv] with [npv]
    and [fdr] with [for], and leaves [total], [accuracy], [markedness] and
    [balancedAccuracy] unchanged, bit for bit. *)
Theorem swap_classes_duality (c : ConfusionCounts) :
  let m := computeMetricsFromCounts c in
  let m' := computeMetricsFromCounts (swap_classes c) in
  tpr m' = tnr m /\ tnr m' = tpr m /\
  fpr m' = fnr m /\ fnr m' = fpr m /\
  ppv m' = npv m /\ npv m' = ppv m /\
  fdr m' = _for m /\ _for m' = fdr m /\
  total m' = total m /\ accuracy m' = accuracy m /\
  markedness m' = markedness m /\
  balancedAccuracy m' = balancedAccuracy m.
Proof.
  intros m m'.
  repeat (split; [reflexivity|]).
  cbn [m m' computeMetricsFromCounts swap_classes total accuracy markedness
       balancedAccuracy tp tn fp fn].
  split; [apply add_comm_all|].
  split; [rewrite (add_comm_all (tn c) (tp c)),
                  (add_comm_all (add (tn c) (fp c)) (add (tp c) (fn c))); reflexivity|].
  split.
  - rewrite (add_comm_all (divide (tn c) (add (tn c) (fn c)))). reflexivity.
  - rewrite (add_comm_all (divide (tn c) (add (tn c) (fp c)))). reflexivity.
Qed.

(** ** Complementary rates of exactly representable counts *)

(** X11: when [tp] and [fn] are non-negative integers with a nonzero sum
    of at most 2^53, [tpr + fnr] is exactly 1 or the number just below it,
    1 - 2^-53; likewise [tnr + fpr] for [tn] and [fp]. *)
Theorem complementary_rates_exact_range (c : ConfusionCounts) (ntp ntn nfp nfn : Z) :
  nonneg_integer (tp c) = true -> Zvalue (tp c) = Some ntp ->
  nonneg_integer (tn c) = true -> Zvalue (tn c) = Some ntn ->
  nonneg_integer (fp c) = true -> Zvalue (fp c) = Some nfp ->
  nonneg_integer (fn c) = true -> Zvalue (fn c) = Some nfn ->
  let m := computeMetricsFromCounts c in
  (0 < ntp + nfn <= 2 ^ 53 ->
   (tpr m + fnr m)%num = of_Z 1 \/ (tpr m + fnr m)%num = pred_one) /\
  (0 < ntn + nfp <= 2 ^ 53 ->
   (tnr m + fpr m)%num = of_Z 1 \/ (tnr m + fpr m)%num = pred_one).
Proof.
  intros Htp Vtp Htn Vtn Hfp Vfp Hfn Vfn m.
  apply nonneg_integer_finite in Htp, Htn, Hfp, Hfn.
  apply Zvalue_B2R in Vtp, Vtn, Vfp, Vfn.
  split; intros Hb.
  - exact (ratio_pair (tp c) (fn c) ntp nfn Htp Hfn Vtp Vfn Hb).
  - exact (ratio_pair (tn c) (fp c) ntn nfp Htn Hfp Vtn Vfp Hb).
Qed.

Lemma complementary_rates_exact_range_witness :
  let m := computeMetricsFromCounts
             {| tp := of_Z 70; tn := of_Z 100; fp := of_Z 10; fn := of_Z 20 |} in
  ((tpr m + fnr m)%num = of_Z 1 \/ (tpr m + fnr m)%num = pred_one) /\
  ((tnr m + fpr m)%num = of_Z 1 \/ (tnr m + fpr m)%num = pred_one).
Proof.
  intros m.
  pose proof (complementary_rates_exact_range
                {| tp := of_Z 70; tn := of_Z 100; fp := of_Z 10; fn := of_Z 20 |}
                70 100 10 20 eq_refl eq_refl eq_refl eq_refl eq_refl eq_refl
                eq_refl eq_refl) as [H1 H2].
  split; [apply H1 | apply H2]; lia.
Defined.


(** ** Accuracy of the computed rates *)

Lemma quotient_error (x w : number) (a n : Z) :
  finite_nonneg x = true -> finite_nonneg w = true ->
  B2R x = IZR a -> B2R w = IZR n -> 0 <= a <= n -> 0 < n ->
  finite_nonneg (divide x w) = true /\
  (Rabs (B2R (divide x w) - IZR a / IZR n) <= bpow (-54))%R.
Proof.
  intros Fx Fw Ra Rw Ha Hn.
  assert (Hn' : (0 < IZR n)%R) by (apply IZR_lt; assumption).
  assert (Ha0 : (0 <= IZR a)%R) by (apply IZR_le; lia).
  assert (Han : (IZR a <= IZR n)%R) by (apply IZR_le; lia).
  destruct w as [s|s| |[] m e]; simpl finite_nonneg in Fw; try discriminate Fw.
  { simpl in Rw. lra. }
  rewrite divide_nonzero by discriminate.
  destruct (div_le_1 x m e Fx ltac:(rewrite Ra, Rw; assumption))
    as (F & _ & (t & Ht & R)).
  split; [assumption|]. rewrite R, Ra, Rw in *.
  apply rnd_unit_error; [|assumption]. split.
  - apply Rmult_le_pos; [assumption | left; apply Rinv_0_lt_compat; assumption].
  - apply Rmult_le_reg_r with (IZR n); [assumption|].
    replace (IZR a / IZR n * IZR n)%R with (IZR a) by (field; lra). lra.
Qed.

(** X8: for counts that are non-negative integers with a sum of at most
    2^53, each of [tpr], [tnr], [ppv], [npv], [prevalence] and [accuracy]
    whose denominator is positive is a finite number within 2^-54 of the
    exact quotient of the integer counts. *)
Theorem rates_within_half_ulp (c : ConfusionCounts) (ntp ntn nfp nfn : Z) :
  nonneg_integer (tp c) = true -> Zvalue (tp c) = Some ntp ->
  nonneg_integer (tn c) = true -> Zvalue (tn c) = Some ntn ->
  nonneg_integer (fp c) = true -> Zvalue (fp c) = Some nfp ->
  nonneg_integer (fn c) = true -> Zvalue (fn c) = Some nfn ->
  ntp + ntn + nfp + nfn <= 2 ^ 53 ->
  let m := computeMetricsFromCounts c in
  let close (r : number) (a n : Z) :=
    0 < n -> finite_nonneg r = true /\
             (Rabs (B2R r - IZR a / IZR n) <= bpow (-54))%R in
  close (tpr m) ntp (ntp + nfn) /\
  close (tnr m) ntn (ntn + nfp) /\
  close (ppv m) ntp (ntp + nfp) /\
  close (npv m) ntn (ntn + nfn) /\
  close (prevalence m) (ntp + nfn) (ntp + nfn + (ntn + nfp)) /\
  close (accuracy m) (ntp + ntn) (ntp + nfn + (ntn + nfp)).
Proof.
  intros Htp Vtp Htn Vtn Hfp Vfp Hfn Vfn Hsum m close.
  apply nonneg_integer_finite in Htp, Htn, Hfp, Hfn.
  apply Zvalue_B2R in Vtp, Vtn, Vfp, Vfn.
  pose proof (finite_nonneg_B2R _ Htp) as P1. pose proof (finite_nonneg_B2R _ Htn) as P2.
  pose proof (finite_nonneg_B2R _ Hfp) as P3. pose proof (finite_nonneg_B2R _ Hfn) as P4.
  rewrite Vtp in P1. rewrite Vtn in P2. rewrite Vfp in P3. rewrite Vfn in P4.
  apply le_IZR in P1, P2, P3, P4.
  destruct (add_int (tp c) (fn c) ntp nfn Htp Hfn Vtp Vfn ltac:(lia)) as [Fpos Rpos].
  destruct (add_int (tn c) (fp c) ntn nfp Htn Hfp Vtn Vfp ltac:(lia)) as [Fneg Rneg].
  destruct (add_int (tp c) (fp c) ntp nfp Htp Hfp Vtp Vfp ltac:(lia)) as [Fpp Rpp].
  destruct (add_int (tn c) (fn c) ntn nfn Htn Hfn Vtn Vfn ltac:(lia)) as [Fpn Rpn].
  destruct (add_int (tp c) (tn c) ntp ntn Htp Htn Vtp Vtn ltac:(lia)) as [Fc Rc].
  destruct (add_int _ _ _ _ Fpos Fneg Rpos Rneg ltac:(lia)) as [Ft Rt].
  unfold close.
  cbn [m computeMetricsFromCounts tpr tnr ppv npv prevalence accuracy].
  repeat (split; [intros Hn; eapply quotient_error; eauto; lia|]).
  intros Hn; eapply quotient_error; eauto; lia.
Qed.

Lemma rates_within_half_ulp_witness :
  let m := computeMetricsFromCounts
             {| tp := of_Z 70; tn := of_Z 100; fp := of_Z 10; fn := of_Z 20 |} in
  let close (r : number) (a n : Z) :=
    0 < n -> finite_nonneg r = true /\
             (Rabs (B2R r - IZR a / IZR n) <= bpow (-54))%R in
  close (tpr m) 70 (70 + 20) /\
  close (tnr m) 100 (100 + 10) /\
  close (ppv m) 70 (70 + 10) /\
  close (npv m) 100 (100 + 20) /\
  close (prevalence m) (70 + 20) (70 + 20 + (100 + 10)) /\
  close (accuracy m) (70 + 100) (70 + 20 + (100 + 10)).
Proof.
  apply (rates_within_half_ulp
           {| tp := of_Z 70; tn := of_Z 100; fp := of_Z 10; fn := of_Z 20 |}
           70 100 10 20); try reflexivity.
  vm_compute. discriminate.
Defined.

(** ** Label encodings *)

Lemma step_ext (p a p' a' : list value) (pv pv' : value) (c : ConfusionCounts) (i : nat) :
  isPositive pv (get p i) = isPositive pv' (get p' i) ->
  isPositive pv (get a i) = isPositive pv' (get a' i) ->
  step p a pv c i = step p' a' pv' c i.
Proof. intros Hp Ha. unfold step. rewrite Hp, Ha. reflexivity. Qed.

Lemma fold_step_ext (p a p' a' : list value) (pv pv' : value)
    (l : list nat) (c : ConfusionCounts) :
  (forall i, In i l -> isPositive pv (get p i) = isPositive pv' (get p' i)) ->
  (forall i, In i l -> isPositive pv (get a i) = isPositive pv' (get a' i)) ->
  fold_left (step p a pv) l c = fold_left (step p' a' pv') l c.
Proof.
  revert c. induction l as [|i l IH]; intros c Hp Ha; [reflexivity|].
  cbn [fold_left]. rewrite (step_ext p a p' a' pv pv') by (apply Hp || apply Ha; now left).
  apply IH; intros j Hj; [apply Hp | apply Ha]; now right.
Qed.

(** X9: the counts depend on the labels only through their positivity:
    two calls whose arrays have the same lengths and the same positive
    positions return the same result, whatever the labels and
    [positiveValue] are. *)
Theorem counts_depend_on_positivity (p a p' a' : list value) (pv pv' : value) :
  List.length p = List.length p' ->
  List.length a = List.length a' ->
  (forall i, isPositive pv (get p i) = isPositive pv' (get p' i)) ->
  (forall i, isPositive pv (get a i) = isPositive pv' (get a' i)) ->
  computeCountsFromLabels p a pv = computeCountsFromLabels p' a' pv'.
Proof.
  intros Lp La Hp Ha. unfold computeCountsFromLabels. rewrite <- Lp, <- La.
  destruct (negb (Nat.eqb (List.length p) (List.length a))); [reflexivity|].
  f_equal. apply fold_step_ext; auto.
Qed.

Lemma counts_depend_on_positivity_witness :
  computeCountsFromLabels [VBoolean true; VBoolean false] [VBoolean false; VBoolean false]
                          VUndefined =
  computeCountsFromLabels [VString "spam"; VString "ham"] [VString "ham"; VString "ham"]
                          (VString "spam").
Proof.
  apply counts_depend_on_positivity; try reflexivity;
    intros [|[|[|i]]]; reflexivity.
Defined.


(** ** Subtraction from a larger number and doubling *)

Lemma finite_lt_bpow_emax (m : positive) (e : Z) :
  SpecFloat.bounded prec emax m e = true ->
  (B2R (S754_finite false m e) < bpow emax)%R.
Proof.
  intros Hb. destruct (bounded_inv m e Hb) as (Hm & [_ He] & _ & _).
  rewrite B2R_finite_pos. apply IZR_lt in Hm. rewrite <- bpow_IZR in Hm by lia.
  pose proof (bpow_pos e) as Hp. pose proof (bpow_le e (emax - prec) He) as Hle.
  assert (E : bpow emax = (bpow 53 * bpow (emax - prec))%R)
    by (rewrite <- bpow_add; reflexivity).
  rewrite E. pose proof (bpow_pos 53).
  apply Rlt_le_trans with (bpow 53 * bpow e)%R; [apply Rmult_lt_compat_r; lra|].
  apply Rmult_le_compat_l; lra.
Qed.

Lemma sub_le (mx : positive) (ex : Z) (y : number) :
  SpecFloat.bounded prec emax mx ex = true ->
  finite_nonneg y = true ->
  (B2R y <= B2R (S754_finite false mx ex))%R ->
  finite_nonneg (sub (S754_finite false mx ex) y) = true /\
  (B2R (sub (S754_finite false mx ex) y) <= B2R (S754_finite false mx ex))%R.
Proof.
  intros Hx Hy Hle.
  destruct y as [s|s| |[] my ey]; simpl finite_nonneg in Hy; try discriminate Hy.
  { split; [exact Hx | apply Rle_refl]. }
  unfold sub, SFsub. cbn [cond_Zopp].
  set (ez := Z.min ex ey).
  pose proof (shl_align_spec mx ex ez) as [_ Ex].
  pose proof (shl_align_spec my ey ez) as [_ Ey].
  replace (Z.min ex ez) with ez in Ex by lia.
  replace (Z.min ey ez) with ez in Ey by lia.
  rewrite Ex, Ey.
  set (M := Zpos mx * 2 ^ (ex - ez) - Zpos my * 2 ^ (ey - ez)).
  assert (Hv : (IZR M * bpow ez =
                B2R (S754_finite false mx ex) - B2R (S754_finite false my ey))%R).
  { unfold M. rewrite minus_IZR, !IZR_shift, !B2R_finite_pos by lia.
    rewrite Rmult_minus_distr_r, !Rmult_assoc, <- !bpow_add.
    replace (ex - ez + ez) with ex by lia. replace (ey - ez + ez) with ey by lia.
    reflexivity. }
  pose proof (bpow_pos ez) as Hez.
  pose proof (finite_pos_B2R my ey) as Hyp.
  destruct M as [|M|M].
  - cbn [binary_normalize]. split; [reflexivity|].
    simpl B2R at 1. pose proof (finite_pos_B2R mx ex). lra.
  - rewrite binary_normalize_pos.
    pose proof (cexp_of_pos M ez) as Hc. rewrite Hv in *.
    pose proof (rnd_le _ _ _ _ Hc (cexp_of_finite mx ex Hx) ltac:(lra)) as Hr.
    rewrite (rnd_finite (S754_finite false mx ex) ex Hx (cexp_of_finite mx ex Hx)) in Hr.
    destruct (Fl_spec _ _ Hc) as [Hfin _].
    destruct (Hfin ltac:(pose proof (finite_lt_bpow_emax mx ex Hx); lra)) as [F R].
    split; [assumption|]. rewrite R. assumption.
  - exfalso. assert (IZR (Zneg M) < 0)%R by (apply IZR_lt; lia). nra.
Qed.

Lemma one_minus_unit (r : number) :
  r = NaN \/ (finite_nonneg r = true /\ (B2R r <= 1)%R) ->
  in_unit_interval (sub (of_Z 1) r).
Proof.
  intros [->|[F L]]; [intros H; discriminate H|].
  destruct of_Z_0_1 as (_ & _ & F1 & R1).
  change (of_Z 1) with (S754_finite false 4503599627370496 (-52)) in *.
  destruct (sub_le 4503599627370496 (-52) r F1 F ltac:(rewrite R1; assumption)) as [Fs Ls].
  rewrite R1 in Ls. apply in_unit_finite; assumption.
Qed.

Lemma mul_2_ext (y : number) :
  finite_nonneg y = true -> nonneg_ext (mul (of_Z 2) y) = true.
Proof.
  intros Hy.
  destruct y as [[]|s| |[] my ey]; simpl finite_nonneg in Hy; try discriminate Hy;
    try reflexivity.
  change (of_Z 2) with (S754_finite false 4503599627370496 (-51)).
  unfold mul, SFmul. cbn [xorb].
  rewrite (binary_round_aux_Fl false _ _ loc_Exact
             (IZR (Zpos (4503599627370496 * my)))) by (simpl; lia || reflexivity).
  cbn [Zdigits2].
  pose proof (cexp_of_pos (4503599627370496 * my) (-51 + ey)) as Hc.
  assert (Hd : Zpos (digits2_pos (4503599627370496 * my)) =
               Zpos (digits2_pos my) + 52).
  { apply digits_shift; [lia|]. rewrite Pos2Z.inj_mul. change (2 ^ 52) with 4503599627370496. lia. }
  assert (Ht : Z.max (-51 + ey) (fexp (Zpos (digits2_pos (4503599627370496 * my)) + (-51 + ey)))
               = fexp (Zpos (digits2_pos (4503599627370496 * my)) + (-51 + ey))).
  { rewrite fexp_eq, Hd. lia. }
  rewrite Ht.
  destruct (Fl_spec _ _ Hc) as [Hfin Hinf].
  destruct (Rlt_le_dec (rnd (IZR (Zpos (4503599627370496 * my)) * bpow (-51 + ey))
                            (fexp (Zpos (digits2_pos (4503599627370496 * my)) + (-51 + ey))))
                       (bpow emax)) as [Hlt|Hge].
  - apply finite_nonneg_ext, Hfin, Hlt.
  - rewrite (Hinf Hge). reflexivity.
Qed.

Lemma part_of_three_ext (x y z : number) :
  nonneg_ext x = true -> finite_nonneg y = true -> finite_nonneg z = true ->
  in_unit_interval (divide x (add (add x y) z)).
Proof.
  intros Hx Hy Hz.
  destruct (nonneg_ext_cases x Hx) as [Fx| ->]; [apply part_of_three; assumption|].
  rewrite (add_inf_l y) by (apply finite_nonneg_ext, Hy).
  rewrite (add_inf_l z) by (apply finite_nonneg_ext, Hz).
  intros H. discriminate H.
Qed.

(** X10: for counts that are non-negative integers of any size, [fdr],
    [for] and [f1] are [NaN] or lie in [[0, 1]]. *)
Theorem fdr_for_f1_in_unit_interval (c : ConfusionCounts) :
  nonneg_integer (tp c) = true -> nonneg_integer (tn c) = true ->
  nonneg_integer (fp c) = true -> nonneg_integer (fn c) = true ->
  let m := computeMetricsFromCounts c in
  in_unit_interval (fdr m) /\ in_unit_interval (_for m) /\ in_unit_interval (f1 m).
Proof.
  intros Htp Htn Hfp Hfn m.
  apply nonneg_integer_finite in Htp, Htn, Hfp, Hfn.
  cbn [m computeMetricsFromCounts fdr _for f1].
  split; [apply one_minus_unit, part_of_sum_value; assumption|].
  split; [apply one_minus_unit, part_of_sum_value; assumption|].
  apply part_of_three_ext; try assumption. apply mul_2_ext, Htp.
Qed.

Lemma fdr_for_f1_in_unit_interval_witness :
  let m := computeMetricsFromCounts
             {| tp := of_Z 70; tn := of_Z 100; fp := of_Z 10; fn := of_Z 20 |} in
  in_unit_interval (fdr m) /\ in_unit_interval (_for m) /\ in_unit_interval (f1 m).
Proof.
  apply (fdr_for_f1_in_unit_interval
           {| tp := of_Z 70; tn := of_Z 100; fp := of_Z 10; fn := of_Z 20 |});
    reflexivity.
Defined.
